(** * Entity resolution in [data-cleaner.py]: a shallow embedding

    The development follows [src/data-cleaner.py]: the normaliser
    ([preprocess_text], [preprocess_dataset]), the exact matcher (the two
    inner merges of [main]), the fuzzy matcher ([get_potential_matches]),
    the operator step ([display_unmatched]), and the identifier assigner
    and merger ([validate_matching]).

    Python values are modelled as they reach the code:
    - a [str] is the list of its Unicode code points ([pystr]);
    - a cell of a pandas object column is a string, a missing value or a
      number ([cell]);
    - a DataFrame is the list of its rows in order, each with its index
      label ([frame]); a Series is the list of its labelled values;
    - a raised exception is the [Raise] branch of [result];
    - [uuid.uuid4] draws from a random source, read through a counter.

    What the code takes from libraries whose sources are not part of the
    repository (Unidecode's tables, Python's Unicode case mapping,
    fuzzywuzzy's processor and scorer, the operator's clicks) enters as
    Section variables. *)

From Stdlib Require Import List NArith ZArith Bool Lia String Ascii FinFun.
Import ListNotations.

Set Implicit Arguments.

(** ** Python values *)

(** A Python string: its code points. *)
Definition pystr := list N.

(** ASCII literals of the source, as code points. *)
Fixpoint py (s : string) : pystr :=
  match s with
  | EmptyString => []
  | String a r => N_of_ascii a :: py r
  end.

Definition pystr_eqb (a b : pystr) : bool :=
  if list_eq_dec N.eq_dec a b then true else false.

(** A cell of an object column: [read_csv] gives a string, NaN for a
    missing field, or a number when the whole column parses as numbers. *)
Inductive cell :=
| Str (s : pystr)
| NaN
| Num (z : Z).

Definition cell_eq_dec (a b : cell) : {a = b} + {a <> b}.
Proof.
  decide equality; [apply (list_eq_dec N.eq_dec) | apply Z.eq_dec].
Defined.

(** Key and label equality as pandas' hash tables see it: missing values
    fall in one group, a string never equals a number. *)
Definition cell_eqb (a b : cell) : bool :=
  if cell_eq_dec a b then true else false.

(** [Series.notna]. *)
Definition notna (c : cell) : bool :=
  match c with NaN => false | _ => true end.

Definition is_str (c : cell) : bool :=
  match c with Str _ => true | _ => false end.

(** Python exceptions the pipeline can raise. *)
Inductive exn := AttributeError | TypeError | ValueError | IndexError.

Inductive result (A : Type) :=
| Ok (a : A)
| Raise (e : exn).

Arguments Ok {A} a.
Arguments Raise {A} e.

Definition bind {A B} (m : result A) (k : A -> result B) : result B :=
  match m with
  | Ok a => k a
  | Raise e => Raise e
  end.

Notation "x <- m ;; k" := (bind m (fun x => k))
  (at level 61, m at next level, right associativity).

(** [Series.apply(f)] with a function that may raise: rows in order, the
    first exception aborts. *)
Fixpoint mapM {A B} (f : A -> result B) (l : list A) : result (list B) :=
  match l with
  | [] => Ok []
  | a :: r => b <- f a ;; bs <- mapM f r ;; Ok (b :: bs)
  end.

(** An index label is a cell value: an integer position for a
    [RangeIndex], a name after [set_index]. *)
Definition label := cell.

Definition frame (R : Type) := list (label * R).
Definition series := list (label * cell).

Definition index {R} (f : frame R) : list label := map fst f.
Definition rows {R} (f : frame R) : list R := map snd f.

(** [RangeIndex(start, start + len l)] laid over [l]. *)
Fixpoint range_from {R} (start : Z) (l : list R) : frame R :=
  match l with
  | [] => []
  | r :: t => (Num start, r) :: range_from (start + 1) t
  end.

Definition range_index {R} (l : list R) : frame R := range_from 0 l.

(** ** The tables *)

(** A row of the uploaded table: the three columns the code names, and
    the passthrough columns. *)
Record record := {
  Company : cell;
  Government_entity : cell;
  Country : cell;
  passthrough : list cell
}.

Module Remote.
(** A row of [declaration_companies.csv]. *)
Record row := {
  country : cell;
  company_name : cell;
  eiti_id_company : cell;
  government_entity : cell;
  eiti_id_government : cell;
  others : list cell
}.
End Remote.

Module Pending.
(** A row of [unmatched_companies] / [unmatched_governments]: the
    uploaded row with the two columns [main] adds. *)
Record row := {
  source : record;
  Potential_Match : cell;
  EITI_ID : cell
}.
End Pending.

Module Resolved.
(** A row of the table [validate_matching] returns. *)
Record row := {
  source : record;
  eiti_id_company : cell;
  eiti_id_government : cell
}.
End Resolved.

(** The two entity types [display_unmatched] is called with. *)
Inductive entity_type := CompanyT | GovernmentT.

Definition remote_column (t : entity_type) (e : Remote.row) : cell :=
  match t with
  | CompanyT => Remote.company_name e
  | GovernmentT => Remote.government_entity e
  end.

(** [f'eiti_id_{entity_type.split()[0].lower()}'] *)
Definition remote_id (t : entity_type) (e : Remote.row) : cell :=
  match t with
  | CompanyT => Remote.eiti_id_company e
  | GovernmentT => Remote.eiti_id_government e
  end.

(** ** Sample data

    A small upload and registry, and simple stand-ins for the library
    tables, the scorer, the operator and the random source, on which the
    statements below are run. *)

Definition sample_acme : record :=
  {| Company := Str (py "Acme"); Government_entity := Str (py "Tax Office");
     Country := Str (py "Ghana"); passthrough := [Str (py "1200")] |}.

Definition sample_zeta : record :=
  {| Company := Str (py "Zeta Mining"); Government_entity := Str (py "Tax Office");
     Country := Str (py "Ghana"); passthrough := [Str (py "350")] |}.

Definition sample_blank : record :=
  {| Company := NaN; Government_entity := Str (py "Tax Office");
     Country := Str (py "Ghana"); passthrough := [] |}.

Definition sample_a1 : Remote.row :=
  {| Remote.country := Str (py "Ghana"); Remote.company_name := Str (py "ACME");
     Remote.eiti_id_company := Str (py "A1");
     Remote.government_entity := Str (py "Tax office");
     Remote.eiti_id_government := Str (py "G1"); Remote.others := [] |}.

Definition sample_a2 : Remote.row :=
  {| Remote.country := Str (py "GHANA"); Remote.company_name := Str (py "Acme");
     Remote.eiti_id_company := Str (py "A2");
     Remote.government_entity := Str (py "Tax office");
     Remote.eiti_id_government := Str (py "G1"); Remote.others := [] |}.

(** An entity of another country. *)
Definition sample_mali : Remote.row :=
  {| Remote.country := Str (py "Mali"); Remote.company_name := Str (py "Zeta Mining");
     Remote.eiti_id_company := Str (py "M7");
     Remote.government_entity := Str (py "Tax Office");
     Remote.eiti_id_government := Str (py "M1"); Remote.others := [] |}.

Definition sample_pending : frame Pending.row :=
  [(Num 0, {| Pending.source := sample_zeta;
              Pending.Potential_Match := Str (py "No potential match");
              Pending.EITI_ID := Str [] |});
   (Num 1, {| Pending.source := sample_acme;
              Pending.Potential_Match := Str (py "ACME");
              Pending.EITI_ID := Str (py "A1") |});
   (Num 2, {| Pending.source := sample_zeta;
              Pending.Potential_Match := Str (py "No potential match");
              Pending.EITI_ID := Str [] |})].

(** The code points of "Société": S o c i U+00E9 t U+00E9. *)
Definition Societe_accented : pystr := [83; 111; 99; 105; 233; 116; 233]%N.

(** U+00E9 to "e", nothing else known. *)
Definition sample_table : N -> pystr :=
  fun c => if (c =? 233)%N then py "e" else [].

Definition sample_upper : N -> pystr := fun c => [c].

Definition sample_score : pystr -> pystr -> nat :=
  fun q c => if pystr_eqb q c then 100 else 0.

(** The operator leaves every selectbox on its first option. *)
Definition no_click : entity_type -> label -> list cell -> nat := fun _ _ _ => 0.

Definition sample_uuid4 : nat -> pystr := fun n => py "uuid-" ++ [N.of_nat n].

(** An operator who takes the first registry name everywhere, and a
    scorer that cannot tell the candidates apart. *)
Definition sample_click : entity_type -> label -> list cell -> nat := fun _ _ _ => 1.

Definition sample_flat_score : pystr -> pystr -> nat := fun _ _ => 50.

(** * The pipeline *)

Section Pipeline.

(** ** Normaliser *)

(** Unidecode's transliteration tables: the replacement of a code point
    of 128 or more (the empty string where the tables have none). *)
Variable table : N -> pystr.

(** Python's upper-case mapping of a code point of 128 or more. *)
Variable unicode_upper : N -> pystr.

Definition is_ascii (c : N) : bool := (c <? 128)%N.

(** [unidecode.unidecode]: a string that encodes to ASCII is returned
    as it is; otherwise every code point below 128 is kept and every
    other one is replaced from the tables. *)
Definition _unidecode (s : pystr) : pystr :=
  flat_map (fun c => if is_ascii c then [c] else table c) s.

Definition unidecode (s : pystr) : pystr :=
  if forallb is_ascii s then s else _unidecode s.

Definition ascii_upper (c : N) : N :=
  if ((97 <=? c) && (c <=? 122))%N then (c - 32)%N else c.

(** [str.upper]. *)
Definition upper (s : pystr) : pystr :=
  flat_map (fun c => if is_ascii c then [ascii_upper c] else unicode_upper c) s.

(** [preprocess_text]: [unidecode.unidecode(text).upper()]. Unidecode
    starts with [text.encode('ASCII')], which a float or an int does
    not have. *)
Definition preprocess_text (text : cell) : result cell :=
  match text with
  | Str s => Ok (Str (upper (unidecode s)))
  | _ => Raise AttributeError
  end.

Definition set_Company (r : record) (v : cell) : record :=
  {| Company := v; Government_entity := Government_entity r;
     Country := Country r; passthrough := passthrough r |}.

Definition set_Government_entity (r : record) (v : cell) : record :=
  {| Company := Company r; Government_entity := v;
     Country := Country r; passthrough := passthrough r |}.

(** [df[col] = df[col].apply(preprocess_text)] on a frame, the column
    given by its getter and setter. *)
Definition apply_column {R} (get : R -> cell) (set : R -> cell -> R)
           (df : frame R) : result (frame R) :=
  mapM (fun lr => v <- preprocess_text (get (snd lr)) ;;
                  Ok (fst lr, set (snd lr) v)) df.

(** [preprocess_dataset]. *)
Definition preprocess_dataset (df : frame record) : result (frame record) :=
  df1 <- apply_column Company set_Company df ;;
  apply_column Government_entity set_Government_entity df1.

(** ** Registry loading *)

(** [Series.str.upper()]: strings are upper-cased, anything else in an
    object column becomes NaN; a column with rows but no string is not
    an object column and has no [.str] accessor. *)
Definition has_str (col : list cell) : bool :=
  existsb is_str col.

Definition str_upper (col : list cell) : result (list cell) :=
  match col with
  | [] => Ok []
  | _ => if has_str col
         then Ok (map (fun c => match c with Str s => Str (upper s) | _ => NaN end) col)
         else Raise AttributeError
  end.

(** Element-wise [==] of pandas: a missing value equals nothing. *)
Definition elem_eqb (a b : cell) : bool := notna a && cell_eqb a b.

Definition mem (c : cell) (l : list cell) : bool := existsb (cell_eqb c) l.

(** [drop_duplicates(subset=[key])]: the first row of every key value
    is kept, with its label. *)
Fixpoint drop_duplicates_from {R} (key : R -> cell) (seen : list cell)
         (f : frame R) : frame R :=
  match f with
  | [] => []
  | lr :: t =>
      if mem (key (snd lr)) seen then drop_duplicates_from key seen t
      else lr :: drop_duplicates_from key (key (snd lr) :: seen) t
  end.

Definition drop_duplicates {R} (key : R -> cell) (f : frame R) : frame R :=
  drop_duplicates_from key [] f.

(** [load_remote_dataset], on the table [read_csv] returned. *)
Definition load_remote_dataset (remote_df : frame Remote.row) (country : cell)
  : result (frame Remote.row * frame Remote.row) :=
  ups <- str_upper (map Remote.country (rows remote_df)) ;;
  c <- match country with
       | Str s => Ok (Str (upper s))
       | _ => Raise AttributeError
       end ;;
  let filtered_df :=
    map fst (filter (fun lu => elem_eqb (snd lu) c) (combine remote_df ups)) in
  Ok (drop_duplicates Remote.eiti_id_company filtered_df,
      drop_duplicates Remote.eiti_id_government filtered_df).

Definition set_company_name (e : Remote.row) (v : cell) : Remote.row :=
  {| Remote.country := Remote.country e; Remote.company_name := v;
     Remote.eiti_id_company := Remote.eiti_id_company e;
     Remote.government_entity := Remote.government_entity e;
     Remote.eiti_id_government := Remote.eiti_id_government e;
     Remote.others := Remote.others e |}.

Definition set_government_entity (e : Remote.row) (v : cell) : Remote.row :=
  {| Remote.country := Remote.country e; Remote.company_name := Remote.company_name e;
     Remote.eiti_id_company := Remote.eiti_id_company e;
     Remote.government_entity := v;
     Remote.eiti_id_government := Remote.eiti_id_government e;
     Remote.others := Remote.others e |}.

(** ** Exact matcher *)

(** [pd.merge(left, right, left_on=kl, right_on=kr, how='inner')]: every
    left row, in order, with every right row of the same key, in order;
    the result has a fresh [RangeIndex]. *)
Definition merge_inner {L R} (kl : L -> cell) (kr : R -> cell)
           (left : frame L) (right : frame R) : frame (L * R) :=
  range_index
    (flat_map (fun l => map (pair l)
                 (filter (fun r => cell_eqb (kl l) (kr r)) (rows right)))
              (rows left)).

(** [pd.merge(left, right[[key, value]], on=key, how='left')]: as the
    inner merge, and a left row without a partner is kept once with a
    missing value. *)
Definition merge_left {L} (key : L -> cell) (left : frame L)
           (right : list (cell * cell)) : frame (L * cell) :=
  range_index
    (flat_map (fun l =>
                 match filter (fun kv => cell_eqb (key l) (fst kv)) right with
                 | [] => [(l, NaN)]
                 | ms => map (fun kv => (l, snd kv)) ms
                 end)
              (rows left)).

(** [df[~df[col].isin(matches[col])]] *)
Definition not_isin {R} (key : R -> cell) (df : frame R) (values : list cell)
  : frame R :=
  filter (fun lr => negb (mem (key (snd lr)) values)) df.

(** ** Fuzzy matcher *)

(** fuzzywuzzy's default processor and scorer, composed: the score of a
    choice for a query, 0 to 100. *)
Variable score : pystr -> pystr -> nat.

(** Python's [max(best_list, key=lambda i: i[1])]: the first element
    of the greatest score. *)
Definition max_by_score (l : list (cell * nat * label))
  : option (cell * nat * label) :=
  match l with
  | [] => None
  | c :: r =>
      Some (fold_left (fun acc x => if snd (fst acc) <? snd (fst x) then x else acc)
                      r c)
  end.

(** [process.extractOne(query, choices)] on a Series of choices: no
    choice gives [None]; otherwise every choice is scored
    ([score_cutoff] is 0, nothing is filtered) and the best is returned
    with its score and key. The processor raises on a value that is
    not a string. *)
Definition extractOne (query : cell) (choices : series)
  : result (option (cell * nat * label)) :=
  match choices with
  | [] => Ok None
  | _ =>
      match query with
      | Str q =>
          scored <- mapM (fun kc => match snd kc with
                                    | Str c => Ok (snd kc, score q c, fst kc)
                                    | _ => Raise TypeError
                                    end) choices ;;
          Ok (max_by_score scored)
      | _ => Raise TypeError
      end
  end.

(** [get_potential_matches]: [extractOne(x, remote_column)[0]] for
    every unmatched name; subscripting [None] is a [TypeError]. *)
Definition get_potential_matches (unmatched_series remote_col : series)
  : result series :=
  mapM (fun lx =>
          best <- extractOne (snd lx) remote_col ;;
          match best with
          | Some b => Ok (fst lx, fst (fst b))
          | None => Raise TypeError
          end) unmatched_series.

(** ** Operator step *)

(** The operator's click in the selectbox of an entity type and row
    label: a position in the options shown. *)
Variable selectbox : entity_type -> label -> list cell -> nat.

(** Whether "I am done matching" was pressed. *)
Variable button : bool.

Definition No_potential_match : cell := Str (py "No potential match").

Definition set_Potential_Match (v : cell) (p : Pending.row) : Pending.row :=
  {| Pending.source := Pending.source p; Pending.Potential_Match := v;
     Pending.EITI_ID := Pending.EITI_ID p |}.

Definition set_EITI_ID (v : cell) (p : Pending.row) : Pending.row :=
  {| Pending.source := Pending.source p;
     Pending.Potential_Match := Pending.Potential_Match p;
     Pending.EITI_ID := v |}.

(** [df.at[index, col] = v]: label-based, every row of that label. *)
Definition at_set {R} (index : label) (upd : R -> R) (f : frame R) : frame R :=
  map (fun lr => if cell_eqb (fst lr) index then (fst lr, upd (snd lr)) else lr) f.

(** The body of [display_unmatched]'s loop, over the rows [iterrows]
    yields: the selectbox offers 'No potential match' and every registry
    name and returns the option clicked; any other choice than the
    first makes the row take the identifier of the first registry row
    of that name ([.values[0]]). *)
Fixpoint display_loop (t : entity_type) (remote_df : frame Remote.row)
         (iter unmatched_df : frame Pending.row) : result (frame Pending.row) :=
  match iter with
  | [] => Ok unmatched_df
  | (index, _) :: rest =>
      let options := No_potential_match :: map (remote_column t) (rows remote_df) in
      let chosen := nth (selectbox t index options) options No_potential_match in
      let df1 := at_set index (set_Potential_Match chosen) unmatched_df in
      df2 <- (if negb (cell_eqb chosen No_potential_match)
              then match filter (fun e => elem_eqb (remote_column t e) chosen)
                                (rows remote_df) with
                   | e :: _ => Ok (at_set index (set_EITI_ID (remote_id t e)) df1)
                   | [] => Raise IndexError
                   end
              else Ok df1) ;;
      display_loop t remote_df rest df2
  end.

Definition display_unmatched (unmatched_df : frame Pending.row)
           (remote_df : frame Remote.row) (t : entity_type)
  : result (frame Pending.row) :=
  display_loop t remote_df unmatched_df unmatched_df.

(** ** Identifier assigner *)

(** The random source behind [uuid.uuid4()]: the text of the n-th
    identifier drawn in the run. *)
Variable uuid4 : nat -> pystr.

(** [generate_uuid], on the number of identifiers drawn so far. *)
Definition generate_uuid (g : nat) : cell * nat := (Str (uuid4 g), S g).

(** The loops at the head of [validate_matching]. *)
Fixpoint assign_loop (iter unmatched : frame Pending.row) (g : nat)
  : frame Pending.row * nat :=
  match iter with
  | [] => (unmatched, g)
  | (index, row) :: rest =>
      if cell_eqb (Pending.EITI_ID row) (Str [])
      then let (u, g') := generate_uuid g in
           assign_loop rest (at_set index (set_EITI_ID u) unmatched) g'
      else assign_loop rest unmatched g
  end.

Definition assign_ids (unmatched : frame Pending.row) (g : nat)
  : frame Pending.row * nat :=
  assign_loop unmatched unmatched g.

(** The loop, row by row: on a frame of distinct labels [.at] touches
    the row at hand only. *)
Fixpoint assign_rows (l : frame Pending.row) (g : nat) : frame Pending.row * nat :=
  match l with
  | [] => ([], g)
  | (i, row) :: r =>
      if cell_eqb (Pending.EITI_ID row) (Str [])
      then ((i, set_EITI_ID (Str (uuid4 g)) row) :: fst (assign_rows r (S g)),
            snd (assign_rows r (S g)))
      else ((i, row) :: fst (assign_rows r g), snd (assign_rows r g))
  end.

(** The identifiers a run of the loop generated: the new value of
    every row whose 'EITI ID' was empty before. *)
Definition minted (before after : frame Pending.row) : list cell :=
  map (fun p => Pending.EITI_ID (snd (snd p)))
      (filter (fun p => cell_eqb (Pending.EITI_ID (snd (fst p))) (Str []))
              (combine before after)).

(** ** Merger *)

Fixpoint unique (l : list label) : bool :=
  match l with
  | [] => true
  | a :: r => negb (mem a r) && unique r
  end.

(** [s[label]] where the label is present, NaN where it is not. *)
Definition lookup (l : label) (s : series) : cell :=
  match find (fun lv => cell_eqb l (fst lv)) s with
  | Some lv => snd lv
  | None => NaN
  end.

(** [Series.reindex(target)]: nothing to do on an equal index; otherwise
    the labels are looked up, which pandas refuses on an index with
    duplicate labels. *)
Definition reindex (s : series) (target : list label) : result series :=
  if list_eq_dec cell_eq_dec (index s) target then Ok s
  else if unique (index s) then Ok (map (fun l => (l, lookup l s)) target)
  else Raise ValueError.

(** [Index.union], up to the order of the result. *)
Definition union (a b : list label) : list label :=
  a ++ filter (fun l => negb (mem l a)) b.

(** [Series.combine_first(other)]: both sides are reindexed by the
    union of the two indexes, and the holes of [self] are filled from
    [other] label by label. (pandas 2.2 aligns the two sides instead and
    leaves the refusal of duplicate labels to the assignment that
    follows at lines 62-63; the column assigned is the same.) *)
Definition combine_first (self other : series) : result series :=
  let new_index := union (index self) (index other) in
  this <- reindex self new_index ;;
  that <- reindex other new_index ;;
  Ok (map (fun p => (fst (fst p),
                     if notna (snd (fst p)) then snd (fst p) else snd (snd p)))
          (combine this that)).

(** [df[col] = value] with a Series: the values are aligned on the
    labels of [df]. A frame without rows takes the labels of the value
    instead, its other columns missing. *)
Definition setitem {R} (nan_row : R) (set : R -> cell -> R) (df : frame R)
           (value : series) : result (frame R) :=
  match df, value with
  | [], _ :: _ => Ok (map (fun lv => (fst lv, set nan_row (snd lv))) value)
  | _, _ =>
      v <- reindex value (index df) ;;
      Ok (map (fun p => (fst (fst p), set (snd (fst p)) (snd (snd p))))
              (combine df v))
  end.

Definition nan_record : record :=
  {| Company := NaN; Government_entity := NaN; Country := NaN; passthrough := [] |}.

Definition nan_resolved : Resolved.row :=
  {| Resolved.source := nan_record; Resolved.eiti_id_company := NaN;
     Resolved.eiti_id_government := NaN |}.

Definition set_eiti_id_company (o : Resolved.row) (v : cell) : Resolved.row :=
  {| Resolved.source := Resolved.source o; Resolved.eiti_id_company := v;
     Resolved.eiti_id_government := Resolved.eiti_id_government o |}.

Definition set_eiti_id_government (o : Resolved.row) (v : cell) : Resolved.row :=
  {| Resolved.source := Resolved.source o;
     Resolved.eiti_id_company := Resolved.eiti_id_company o;
     Resolved.eiti_id_government := v |}.

(** [frame[col]] and [frame.set_index(key)[col]]. *)
Definition column {R} (get : R -> cell) (f : frame R) : series :=
  map (fun lr => (fst lr, get (snd lr))) f.

Definition set_index_column {R} (key get : R -> cell) (f : frame R) : series :=
  map (fun lr => (key (snd lr), get (snd lr))) f.

(** Lines 59-60: the two left merges. *)
Definition merge_step (df : frame record)
           (company_matches gov_matches : frame (record * Remote.row))
  : frame Resolved.row :=
  let df1 := merge_left Company df
               (map (fun m => (Company (fst m), Remote.eiti_id_company (snd m)))
                    (rows company_matches)) in
  let df2 := merge_left (fun x => Government_entity (fst x)) df1
               (map (fun m => (Government_entity (fst m),
                               Remote.eiti_id_government (snd m)))
                    (rows gov_matches)) in
  map (fun lx => (fst lx,
                  {| Resolved.source := fst (fst (snd lx));
                     Resolved.eiti_id_company := snd (fst (snd lx));
                     Resolved.eiti_id_government := snd (snd lx) |})) df2.

(** The identifier a left merge attaches to a row of key [k]: missing
    when no matched row has the key, else the identifier of a matched
    row of that key. *)
Definition attached (k v : cell) (matches : list (cell * cell)) : Prop :=
  (v = NaN /\ forall kv, In kv matches -> fst kv <> k)
  \/ exists kv, In kv matches /\ fst kv = k /\ v = snd kv.

(** What [validate_matching] leaves: the table it returns and the two
    frames it updated in place. *)
Record validated := {
  resolved : frame Resolved.row;
  assigned_companies : frame Pending.row;
  assigned_governments : frame Pending.row;
  drawn : nat
}.

(** [validate_matching]. *)
Definition validate_matching (df : frame record)
           (company_matches gov_matches : frame (record * Remote.row))
           (unmatched_companies unmatched_governments : frame Pending.row)
           (g : nat) : result validated :=
  let (uc, g1) := assign_ids unmatched_companies g in
  let (ug, g2) := assign_ids unmatched_governments g1 in
  let df2 := merge_step df company_matches gov_matches in
  c <- combine_first (column Resolved.eiti_id_company df2)
         (set_index_column (fun p => Company (Pending.source p)) Pending.EITI_ID uc) ;;
  df3 <- setitem nan_resolved set_eiti_id_company df2 c ;;
  c' <- combine_first (column Resolved.eiti_id_government df3)
          (set_index_column (fun p => Government_entity (Pending.source p))
                            Pending.EITI_ID ug) ;;
  df4 <- setitem nan_resolved set_eiti_id_government df3 c' ;;
  Ok {| resolved := df4; assigned_companies := uc;
        assigned_governments := ug; drawn := g2 |}.

(** ** The run *)

(** The variables of [main] when the script ends. *)
Record session := {
  df_normalized : frame record;
  unique_companies : frame Remote.row;
  unique_governments : frame Remote.row;
  company_matches : frame (record * Remote.row);
  gov_matches : frame (record * Remote.row);
  unmatched_companies : frame Pending.row;
  unmatched_governments : frame Pending.row;
  output : option (frame Resolved.row)
}.

(** The unmatched rows with their two new columns (lines 104-108). *)
Definition pending (unmatched : frame record) (potential : series)
  : frame Pending.row :=
  map (fun p => (fst (fst p),
                 {| Pending.source := snd (fst p);
                    Pending.Potential_Match := snd (snd p);
                    Pending.EITI_ID := Str [] |}))
      (combine unmatched potential).

(** [main], for an uploaded file of rows [uploaded] and a remote table
    of rows [remote]. *)
Definition main (uploaded : list record) (remote : list Remote.row)
  : result session :=
  let df := range_index uploaded in
  country <- match df with
             | [] => Raise IndexError
             | lr :: _ => Ok (Country (snd lr))
             end ;;
  loaded <- load_remote_dataset (range_index remote) country ;;
  df <- preprocess_dataset df ;;
  ucs <- apply_column Remote.company_name set_company_name (fst loaded) ;;
  ugs <- apply_column Remote.government_entity set_government_entity (snd loaded) ;;
  let cm := merge_inner Company Remote.company_name df ucs in
  let gm := merge_inner Government_entity Remote.government_entity df ugs in
  let uc := not_isin Company df (map (fun m => Company (fst m)) (rows cm)) in
  let ug := not_isin Government_entity df
              (map (fun m => Government_entity (fst m)) (rows gm)) in
  pc <- get_potential_matches (column Company uc) (column Remote.company_name ucs) ;;
  pg <- get_potential_matches (column Government_entity ug)
          (column Remote.government_entity ugs) ;;
  uc <- display_unmatched (pending uc pc) ucs CompanyT ;;
  ug <- display_unmatched (pending ug pg) ugs GovernmentT ;;
  if button
  then v <- validate_matching df cm gm uc ug 0 ;;
       Ok {| df_normalized := df; unique_companies := ucs; unique_governments := ugs;
             company_matches := cm; gov_matches := gm;
             unmatched_companies := assigned_companies v;
             unmatched_governments := assigned_governments v;
             output := Some (resolved v) |}
  else Ok {| df_normalized := df; unique_companies := ucs; unique_governments := ugs;
             company_matches := cm; gov_matches := gm;
             unmatched_companies := uc; unmatched_governments := ug;
             output := None |}.

(** * Properties *)

(** ** Normaliser *)

Lemma ascii_upper_ascii c : is_ascii c = true -> is_ascii (ascii_upper c) = true.
Proof.
  unfold is_ascii, ascii_upper. intros H. apply N.ltb_lt in H.
  destruct ((97 <=? c) && (c <=? 122))%N; apply N.ltb_lt; lia.
Qed.

Lemma ascii_upper_involutive c : ascii_upper (ascii_upper c) = ascii_upper c.
Proof.
  unfold ascii_upper.
  destruct ((97 <=? c) && (c <=? 122))%N eqn:E; [ | rewrite E; reflexivity].
  apply andb_true_iff in E. destruct E as [E1 E2].
  apply N.leb_le in E1. apply N.leb_le in E2.
  replace (97 <=? c - 32)%N with false; [reflexivity | ].
  symmetry. apply N.leb_gt. lia.
Qed.

Lemma upper_ascii s :
  forallb is_ascii s = true ->
  forallb is_ascii (upper s) = true /\ upper (upper s) = upper s.
Proof.
  induction s as [ | c s IH]; simpl; [auto | ].
  intros H. apply andb_true_iff in H. destruct H as [Hc Hs].
  destruct (IH Hs) as [IH1 IH2]. rewrite Hc. simpl.
  rewrite (ascii_upper_ascii _ Hc). simpl.
  rewrite ascii_upper_involutive, IH1, IH2. auto.
Qed.

Lemma _unidecode_ascii s :
  (forall c, forallb is_ascii (table c) = true) ->
  forallb is_ascii (_unidecode s) = true.
Proof.
  intros Ht. induction s as [ | c s IH]; simpl; [reflexivity | ].
  rewrite forallb_app, IH, andb_true_r.
  destruct (is_ascii c) eqn:E; [simpl; rewrite E; reflexivity | apply Ht].
Qed.

Lemma unidecode_ascii s :
  (forall c, forallb is_ascii (table c) = true) ->
  forallb is_ascii (unidecode s) = true.
Proof.
  intros Ht. unfold unidecode.
  destruct (forallb is_ascii s) eqn:E; [exact E | apply _unidecode_ascii, Ht].
Qed.

Lemma unidecode_of_ascii s : forallb is_ascii s = true -> unidecode s = s.
Proof. intros H. unfold unidecode. rewrite H. reflexivity. Qed.

(** What [preprocess_text] returns on a string is a fixed point of it. *)
Lemma normal_form_fixed s :
  (forall c, forallb is_ascii (table c) = true) ->
  upper (unidecode (upper (unidecode s))) = upper (unidecode s).
Proof.
  intros Ht.
  destruct (upper_ascii (unidecode s) (unidecode_ascii s Ht)) as [Ha Hu].
  rewrite (unidecode_of_ascii _ Ha). exact Hu.
Qed.

(** C3. [preprocess_text] is idempotent on every string, and it gives
    "Société" and "SOCIETE" the same normal form; Unidecode's tables
    hold ASCII replacements only, and "e" for U+00E9. *)
Theorem preprocess_text_idempotent_insensitive :
  (forall c, forallb is_ascii (table c) = true) ->
  table 233%N = py "e" ->
  (forall x : pystr,
      exists y, preprocess_text (Str x) = Ok (Str y)
                /\ preprocess_text (Str y) = Ok (Str y))
  /\ preprocess_text (Str Societe_accented) = preprocess_text (Str (py "SOCIETE")).
Proof.
  intros Ht He. split.
  - intros x. exists (upper (unidecode x)). split; [reflexivity | ].
    simpl. rewrite (normal_form_fixed x Ht). reflexivity.
  - unfold preprocess_text, unidecode, _unidecode, Societe_accented. simpl.
    rewrite He. reflexivity.
Qed.

(** ** Column-wise normalisation *)

Lemma apply_column_Ok {R} (get : R -> cell) (set : R -> cell -> R) df df' :
  apply_column get set df = Ok df' ->
  Forall2 (fun lr lr' =>
             fst lr' = fst lr /\
             exists s, get (snd lr) = Str s
                       /\ snd lr' = set (snd lr) (Str (upper (unidecode s))))
          df df'.
Proof.
  unfold apply_column. revert df'.
  induction df as [ | [l r] df IH]; simpl; intros df' H.
  - inversion H. constructor.
  - destruct (get r) as [s | | z] eqn:Eg; simpl in H; try discriminate.
    match type of H with context [mapM ?f df] => destruct (mapM f df) as [t | e] eqn:Et end;
      simpl in H; [ | discriminate].
    inversion H; subst. constructor; [ | apply IH; reflexivity].
    simpl. split; [reflexivity | ]. exists s. auto.
Qed.

Lemma apply_column_raise {R} (get : R -> cell) (set : R -> cell -> R) df :
  (exists lr, In lr df /\ is_str (get (snd lr)) = false) ->
  apply_column get set df = Raise AttributeError.
Proof.
  unfold apply_column.
  induction df as [ | [l r] df IH]; simpl; intros [lr [Hin Hs]]; [contradiction | ].
  destruct (get r) as [s | | z] eqn:Eg; simpl; try reflexivity.
  destruct Hin as [<- | Hin]; [simpl in Hs; rewrite Eg in Hs; discriminate | ].
  rewrite IH; [reflexivity | exists lr; auto].
Qed.

Lemma apply_column_total {R} (get : R -> cell) (set : R -> cell -> R) df :
  (forall lr, In lr df -> is_str (get (snd lr)) = true) ->
  exists df', apply_column get set df = Ok df'.
Proof.
  unfold apply_column.
  induction df as [ | [l r] df IH]; simpl; intros H; [eexists; reflexivity | ].
  destruct IH as [t Ht]; [intros; apply H; auto | ].
  specialize (H (l, r) (or_introl eq_refl)). simpl in H.
  destruct (get r); try discriminate. simpl. rewrite Ht. simpl. eexists; reflexivity.
Qed.

Lemma Forall2_In_l {A B} (P : A -> B -> Prop) l l' a :
  Forall2 P l l' -> In a l -> exists b, In b l' /\ P a b.
Proof.
  induction 1 as [ | x y l l' Hxy _ IH]; simpl; [contradiction | ].
  intros [<- | Hin]; [exists y; auto | ].
  destruct (IH Hin) as [b [Hb Pb]]. exists b; auto.
Qed.

Lemma Forall2_In_r {A B} (P : A -> B -> Prop) l l' b :
  Forall2 P l l' -> In b l' -> exists a, In a l /\ P a b.
Proof.
  induction 1 as [ | x y l l' Hxy _ IH]; simpl; [contradiction | ].
  intros [<- | Hin]; [exists x; auto | ].
  destruct (IH Hin) as [a [Ha Pa]]. exists a; auto.
Qed.

(** On a table whose two name columns hold strings only,
    [preprocess_dataset] returns. *)
Lemma preprocess_dataset_total df :
  (forall lr, In lr df -> is_str (Company (snd lr)) = true
                          /\ is_str (Government_entity (snd lr)) = true) ->
  exists df', preprocess_dataset df = Ok df'.
Proof.
  intros H. unfold preprocess_dataset.
  destruct (apply_column_total Company set_Company df) as [df1 H1];
    [intros; apply H; auto | ].
  rewrite H1. simpl. apply apply_column_total.
  intros lr' Hin.
  destruct (Forall2_In_r _ (apply_column_Ok _ _ _ H1) Hin) as [lr [Hlr [_ [s [_ Hs]]]]].
  rewrite Hs. simpl. apply H, Hlr.
Qed.

(** C10. On an uploaded table with a value that is not a string in the
    Company or the Government entity column, [preprocess_dataset]
    raises: the value is neither skipped nor passed through. *)
Theorem preprocess_dataset_raises_on_missing df :
  (exists lr, In lr df /\
              (is_str (Company (snd lr)) = false
               \/ is_str (Government_entity (snd lr)) = false)) ->
  preprocess_dataset df = Raise AttributeError.
Proof.
  intros [lr [Hin Hs]]. unfold preprocess_dataset.
  destruct (apply_column Company set_Company df) as [df1 | e] eqn:E1; simpl.
  - apply apply_column_raise.
    destruct (Forall2_In_l _ (apply_column_Ok _ _ _ E1) Hin) as [lr' [Hin' [_ [s [Hc Hlr']]]]].
    exists lr'. split; [exact Hin' | ].
    rewrite Hlr'. simpl.
    destruct Hs as [Hs | Hs]; [rewrite Hc in Hs; discriminate | exact Hs].
  - destruct (forallb (fun lr => is_str (Company (snd lr))) df) eqn:Ea.
    + rewrite forallb_forall in Ea.
      destruct (apply_column_total Company set_Company df Ea) as [df1 H1].
      congruence.
    + assert (Hex : exists lr, In lr df /\ is_str (Company (snd lr)) = false).
      { clear - Ea. induction df as [ | a df IH]; simpl in Ea; [discriminate | ].
        apply andb_false_iff in Ea. destruct Ea as [Ea | Ea].
        - exists a. simpl. auto.
        - destruct (IH Ea) as [x [Hx Hx']]. exists x. simpl. auto. }
      rewrite (apply_column_raise Company set_Company df Hex) in E1.
      congruence.
Qed.

(** ** Identifier assigner *)

Lemma at_set_notin {R} i (upd : R -> R) (f : frame R) :
  ~ In i (index f) -> at_set i upd f = f.
Proof.
  unfold at_set, index. induction f as [ | [l r] f IH]; simpl; intros H; [reflexivity | ].
  unfold cell_eqb. destruct (cell_eq_dec l i) as [-> | Hne]; [tauto | ].
  f_equal. apply IH. tauto.
Qed.

Lemma at_set_app {R} i (upd : R -> R) (f f' : frame R) :
  at_set i upd (f ++ f') = at_set i upd f ++ at_set i upd f'.
Proof. unfold at_set. apply map_app. Qed.

Lemma at_set_here {R} i (upd : R -> R) (done rest : frame R) r :
  NoDup (index (done ++ (i, r) :: rest)) ->
  at_set i upd (done ++ (i, r) :: rest) = done ++ (i, upd r) :: rest.
Proof.
  intros H. unfold index in H. rewrite map_app in H. simpl in H.
  pose proof (NoDup_remove_2 _ _ _ H) as Hn.
  rewrite at_set_app. simpl. unfold cell_eqb at 1.
  destruct (cell_eq_dec i i) as [_ | Hne]; [ | congruence].
  rewrite (at_set_notin i upd done), (at_set_notin i upd rest); [reflexivity | | ];
    unfold index; intros Hin; apply Hn, in_or_app; auto.
Qed.

Lemma assign_loop_rows iter : forall done g,
  NoDup (index (done ++ iter)) ->
  assign_loop iter (done ++ iter) g
  = (done ++ fst (assign_rows iter g), snd (assign_rows iter g)).
Proof.
  induction iter as [ | [i row] rest IH]; intros done g Hnd; simpl.
  - reflexivity.
  - destruct (cell_eqb (Pending.EITI_ID row) (Str [])) eqn:E; simpl.
    + rewrite (@at_set_here _ i (set_EITI_ID (Str (uuid4 g))) done rest row Hnd).
      change (done ++ (i, set_EITI_ID (Str (uuid4 g)) row) :: rest)
        with (done ++ [(i, set_EITI_ID (Str (uuid4 g)) row)] ++ rest).
      rewrite app_assoc, IH.
      * rewrite <- app_assoc. reflexivity.
      * rewrite <- app_assoc. unfold index in *.
        rewrite map_app in *. exact Hnd.
    + change (done ++ (i, row) :: rest) with (done ++ [(i, row)] ++ rest).
      rewrite app_assoc, IH.
      * rewrite <- app_assoc. reflexivity.
      * rewrite <- app_assoc. exact Hnd.
Qed.

Lemma assign_ids_rows unmatched g :
  NoDup (index unmatched) -> assign_ids unmatched g = assign_rows unmatched g.
Proof.
  intros H. unfold assign_ids.
  pose proof (assign_loop_rows unmatched [] g H) as E. simpl in E.
  rewrite E. destruct (assign_rows unmatched g); reflexivity.
Qed.

Lemma assign_rows_drawn l : forall g, g <= snd (assign_rows l g).
Proof.
  induction l as [ | [i row] r IH]; intros g; simpl; [lia | ].
  destruct (cell_eqb (Pending.EITI_ID row) (Str [])); simpl;
    [specialize (IH (S g)); lia | apply IH].
Qed.

Lemma assign_rows_minted l : forall g,
  minted l (fst (assign_rows l g))
  = map (fun n => Str (uuid4 n)) (seq g (snd (assign_rows l g) - g)).
Proof.
  unfold minted.
  induction l as [ | [i row] r IH]; intros g; simpl.
  - rewrite Nat.sub_diag. reflexivity.
  - destruct (cell_eqb (Pending.EITI_ID row) (Str [])) eqn:E; simpl; rewrite E; simpl.
    + rewrite IH. pose proof (assign_rows_drawn r (S g)) as Hle.
      replace (snd (assign_rows r (S g)) - g)
        with (S (snd (assign_rows r (S g)) - S g)) by lia.
      reflexivity.
    + apply IH.
Qed.

Lemma assign_rows_frame l : forall g,
  Forall2 (fun before after =>
             fst after = fst before /\
             (Pending.EITI_ID (snd before) <> Str [] -> snd after = snd before) /\
             (Pending.EITI_ID (snd before) = Str [] ->
              exists n, g <= n < snd (assign_rows l g)
                        /\ snd after = set_EITI_ID (Str (uuid4 n)) (snd before)))
          l (fst (assign_rows l g)).
Proof.
  induction l as [ | [i row] r IH]; intros g; simpl; [constructor | ].
  unfold cell_eqb.
  destruct (cell_eq_dec (Pending.EITI_ID row) (Str [])) as [E | E]; simpl.
  - constructor.
    + simpl. split; [reflexivity | ]. split; [intros Hne; contradiction | ].
      intros _. exists g. pose proof (assign_rows_drawn r (S g)).
      split; [lia | reflexivity].
    + eapply Forall2_impl; [ | apply (IH (S g))].
      intros b a [H1 [H2 H3]]. split; [exact H1 | ]. split; [exact H2 | ].
      intros Hb. destruct (H3 Hb) as [n [Hn Hs]]. exists n. split; [lia | exact Hs].
  - constructor.
    + simpl. split; [reflexivity | ]. split; [reflexivity | ].
      intros Hb. contradiction.
    + apply IH.
Qed.

(** C6. The assignment loop leaves every row whose 'EITI ID' is not
    the empty string as it was, and gives every other row a newly
    generated identifier, changing nothing else. *)
Theorem assign_ids_never_overwrites unmatched g :
  NoDup (index unmatched) ->
  Forall2 (fun before after =>
             fst after = fst before /\
             (Pending.EITI_ID (snd before) <> Str [] -> snd after = snd before) /\
             (Pending.EITI_ID (snd before) = Str [] ->
              exists n, g <= n < snd (assign_ids unmatched g)
                        /\ snd after = set_EITI_ID (Str (uuid4 n)) (snd before)))
          unmatched (fst (assign_ids unmatched g)).
Proof.
  intros H. rewrite (assign_ids_rows unmatched g H). apply assign_rows_frame.
Qed.

(** C8. With a random source that never repeats an identifier, the
    identifiers generated by the two loops of [validate_matching], for
    the unresolved companies and then the unresolved government
    entities, are pairwise distinct. *)
Theorem minted_identifiers_distinct uc ug g :
  (forall m n, uuid4 m = uuid4 n -> m = n) ->
  NoDup (index uc) -> NoDup (index ug) ->
  NoDup (minted uc (fst (assign_ids uc g))
         ++ minted ug (fst (assign_ids ug (snd (assign_ids uc g))))).
Proof.
  intros Hinj Hc Hg.
  rewrite (assign_ids_rows uc g Hc).
  rewrite (assign_ids_rows ug _ Hg).
  rewrite !assign_rows_minted, <- map_app.
  pose proof (assign_rows_drawn uc g) as H1.
  pose proof (assign_rows_drawn ug (snd (assign_rows uc g))) as H2.
  set (g1 := snd (assign_rows uc g)) in *.
  set (g2 := snd (assign_rows ug g1)) in *.
  replace (seq g1 (g2 - g1)) with (seq (g + (g1 - g)) (g2 - g1))
    by (f_equal; lia).
  rewrite <- seq_app.
  apply Injective_map_NoDup; [ | apply seq_NoDup].
  intros m n Hmn. apply Hinj. congruence.
Qed.

(** ** Labels, lookups and alignment *)

Lemma cell_eqb_refl c : cell_eqb c c = true.
Proof. unfold cell_eqb. destruct (cell_eq_dec c c); congruence. Qed.

Lemma cell_eqb_eq a b : cell_eqb a b = true <-> a = b.
Proof. unfold cell_eqb. destruct (cell_eq_dec a b); split; congruence. Qed.

Lemma cell_eqb_neq a b : cell_eqb a b = false <-> a <> b.
Proof. unfold cell_eqb. destruct (cell_eq_dec a b); split; congruence. Qed.

Lemma mem_In c l : mem c l = true <-> In c l.
Proof.
  unfold mem. rewrite existsb_exists. split.
  - intros [x [Hx E]]. apply cell_eqb_eq in E. subst. exact Hx.
  - intros H. exists c. split; [exact H | apply cell_eqb_refl].
Qed.

Lemma range_from_labels {R} (l : list R) : forall z lbl,
  In lbl (index (range_from z l)) -> exists k, lbl = Num k /\ (z <= k)%Z.
Proof.
  induction l as [ | r l IH]; intros z lbl; simpl; [contradiction | ].
  intros [<- | H]; [exists z; split; [reflexivity | lia] | ].
  destruct (IH _ _ H) as [k [-> Hk]]. exists k. split; [reflexivity | lia].
Qed.

Lemma range_from_NoDup {R} (l : list R) : forall z, NoDup (index (range_from z l)).
Proof.
  induction l as [ | r l IH]; intros z; simpl; constructor; [ | apply IH].
  intros H. destruct (range_from_labels _ _ _ H) as [k [E Hk]].
  inversion E. lia.
Qed.

Lemma range_from_rows {R} (l : list R) : forall z, rows (range_from z l) = l.
Proof. induction l as [ | r l IH]; intros z; simpl; [ | rewrite IH]; reflexivity. Qed.

Lemma range_index_rows {R} (l : list R) : rows (range_index l) = l.
Proof. apply range_from_rows. Qed.

Lemma range_index_NoDup {R} (l : list R) : NoDup (index (range_index l)).
Proof. apply range_from_NoDup. Qed.

Lemma range_index_labels {R} (l : list R) lbl :
  In lbl (index (range_index l)) -> is_str lbl = false.
Proof. intros H. destruct (range_from_labels _ _ _ H) as [k [-> _]]. reflexivity. Qed.

Lemma lookup_head l v (s : series) : lookup l ((l, v) :: s) = v.
Proof. unfold lookup. simpl. rewrite cell_eqb_refl. reflexivity. Qed.

Lemma lookup_tail l l' v (s : series) : l <> l' -> lookup l ((l', v) :: s) = lookup l s.
Proof.
  intros H. unfold lookup. simpl.
  apply cell_eqb_neq in H. rewrite H. reflexivity.
Qed.

Lemma lookup_notin l (s : series) : ~ In l (index s) -> lookup l s = NaN.
Proof.
  induction s as [ | [l' v] s IH]; simpl; intros H; [reflexivity | ].
  rewrite lookup_tail; [apply IH; tauto | intros ->; tauto].
Qed.

Lemma lookup_reindexed (f : label -> cell) (t : list label) l :
  In l t -> lookup l (map (fun l' => (l', f l')) t) = f l.
Proof.
  induction t as [ | a t IH]; simpl; [contradiction | ].
  intros H. destruct (cell_eq_dec l a) as [-> | Hne].
  - apply lookup_head.
  - rewrite lookup_tail by exact Hne. apply IH. destruct H; congruence.
Qed.

Lemma reindex_Ok s t s' :
  reindex s t = Ok s' ->
  index s' = t /\ forall l, In l t -> lookup l s' = lookup l s.
Proof.
  unfold reindex.
  destruct (list_eq_dec cell_eq_dec (index s) t) as [E | E].
  - intros H. inversion H. subst. auto.
  - destruct (unique (index s)); [ | discriminate].
    intros H. inversion H. split.
    + unfold index. rewrite map_map. simpl. apply map_id.
    + intros l Hl. apply lookup_reindexed, Hl.
Qed.

(** Two series on one index, merged value by value. *)
Lemma lookup_zip (h : cell -> cell -> cell) (a : series) : forall (b : series) l,
  index a = index b -> In l (index a) ->
  lookup l (map (fun p => (fst (fst p), h (snd (fst p)) (snd (snd p)))) (combine a b))
  = h (lookup l a) (lookup l b).
Proof.
  induction a as [ | [la va] a IH]; intros [ | [lb vb] b] l E Hin;
    simpl in *; try contradiction; try discriminate.
  inversion E; subst.
  destruct (cell_eq_dec l lb) as [-> | Hne].
  - rewrite !lookup_head. reflexivity.
  - rewrite !lookup_tail by exact Hne. apply IH; [assumption | ].
    destruct Hin; congruence.
Qed.

Lemma index_zip (h : cell -> cell -> cell) (a : series) : forall (b : series),
  index a = index b ->
  index (map (fun p => (fst (fst p), h (snd (fst p)) (snd (snd p)))) (combine a b))
  = index a.
Proof.
  induction a as [ | [la va] a IH]; intros [ | [lb vb] b] E;
    simpl in *; try reflexivity; try discriminate.
  inversion E. f_equal. apply IH. assumption.
Qed.

Lemma combine_first_Ok self other c :
  combine_first self other = Ok c ->
  index c = union (index self) (index other) /\
  forall l, In l (index c) ->
            lookup l c = if notna (lookup l self) then lookup l self
                         else lookup l other.
Proof.
  unfold combine_first.
  destruct (reindex self (union (index self) (index other))) as [this | e] eqn:E1;
    simpl; [ | discriminate].
  destruct (reindex other (union (index self) (index other))) as [that | e] eqn:E2;
    simpl; [ | discriminate].
  intros H. inversion H. clear H.
  destruct (reindex_Ok _ _ E1) as [I1 L1].
  destruct (reindex_Ok _ _ E2) as [I2 L2].
  assert (I : index this = index that) by congruence.
  pose proof (index_zip (fun x y => if notna x then x else y) this that I) as Iz.
  split.
  - rewrite Iz. exact I1.
  - intros l Hl. rewrite Iz in Hl.
    rewrite (lookup_zip (fun x y => if notna x then x else y) this that l I Hl).
    rewrite I1 in Hl. rewrite (L1 l Hl), (L2 l Hl). reflexivity.
Qed.

(** Where [other] has nothing under a label of [self], [combine_first]
    leaves the value of [self]. *)
Lemma combine_first_unaligned self other c l :
  combine_first self other = Ok c ->
  In l (index self) -> ~ In l (index other) ->
  lookup l c = lookup l self.
Proof.
  intros H Hs Ho. destruct (combine_first_Ok _ _ H) as [I L].
  rewrite L.
  - rewrite (lookup_notin l other Ho).
    destruct (lookup l self); reflexivity.
  - rewrite I. unfold union. apply in_or_app. auto.
Qed.

Lemma zip_lookup {R} (set : R -> cell -> R) (df : frame R) : forall (v : series),
  index v = index df -> NoDup (index df) ->
  map (fun p => (fst (fst p), set (snd (fst p)) (snd (snd p)))) (combine df v)
  = map (fun lr => (fst lr, set (snd lr) (lookup (fst lr) v))) df.
Proof.
  induction df as [ | [l r] df IH]; intros [ | [l' x] v] E Hnd;
    simpl in *; try reflexivity; try discriminate.
  inversion E; subst. apply NoDup_cons_iff in Hnd. destruct Hnd as [Hl Hnd].
  rewrite lookup_head. f_equal.
  rewrite IH by assumption.
  apply map_ext_in. intros [l1 r1] Hin. simpl.
  rewrite lookup_tail; [reflexivity | ].
  intros ->. apply Hl. unfold index. apply (in_map fst _ _ Hin).
Qed.

Lemma setitem_nonempty {R} (nan_row : R) (set : R -> cell -> R) df value :
  df <> [] ->
  setitem nan_row set df value
  = (v <- reindex value (index df) ;;
     Ok (map (fun p => (fst (fst p), set (snd (fst p)) (snd (snd p))))
             (combine df v))).
Proof. destruct df; [congruence | reflexivity]. Qed.

Lemma setitem_Ok {R} (nan_row : R) (set : R -> cell -> R) df value df' :
  df <> [] -> NoDup (index df) ->
  setitem nan_row set df value = Ok df' ->
  df' = map (fun lr => (fst lr, set (snd lr) (lookup (fst lr) value))) df.
Proof.
  intros Hne Hnd. rewrite (setitem_nonempty nan_row set value Hne).
  destruct (reindex value (index df)) as [v | e] eqn:Ev;
    unfold bind; [ | discriminate].
  intros H. inversion H. clear H.
  destruct (reindex_Ok _ _ Ev) as [I L].
  rewrite (zip_lookup set df v I Hnd).
  apply map_ext_in. intros lr Hin. rewrite L; [reflexivity | ].
  unfold index. apply (in_map fst _ _ Hin).
Qed.

Lemma lookup_column {R} (get : R -> cell) (df : frame R) lr :
  NoDup (index df) -> In lr df -> lookup (fst lr) (column get df) = get (snd lr).
Proof.
  induction df as [ | [l r] df IH]; simpl; intros Hnd Hin; [contradiction | ].
  apply NoDup_cons_iff in Hnd. destruct Hnd as [Hl Hnd].
  destruct Hin as [<- | Hin]; [apply lookup_head | ].
  rewrite lookup_tail; [apply IH; assumption | ].
  intros E. apply Hl. rewrite <- E. unfold index. apply (in_map fst _ _ Hin).
Qed.

Lemma index_column {R} (get : R -> cell) (df : frame R) :
  index (column get df) = index df.
Proof. unfold index, column. rewrite map_map. reflexivity. Qed.

(** A column filled by [combine_first] from a series that shares no
    label with the frame, and written back, is the column as it was. *)
Lemma combine_first_setitem_unaligned {R} (nan_row : R) (get : R -> cell)
      (set : R -> cell -> R) (df : frame R) (other c : series) df' :
  (forall r, set r (get r) = r) ->
  df <> [] -> NoDup (index df) ->
  (forall l, In l (index df) -> ~ In l (index other)) ->
  combine_first (column get df) other = Ok c ->
  setitem nan_row set df c = Ok df' ->
  df' = df.
Proof.
  intros Hset Hne Hnd Hdis Hc Hs.
  rewrite (@setitem_Ok _ nan_row set df c df' Hne Hnd Hs).
  rewrite <- (map_id df) at 2.
  apply map_ext_in. intros [l r] Hin. simpl.
  assert (Hl : In l (index df)) by (unfold index; apply (in_map fst _ _ Hin)).
  rewrite (@combine_first_unaligned (column get df) other c l Hc);
    [ | rewrite index_column; exact Hl | apply Hdis, Hl].
  pose proof (@lookup_column _ get df (l, r) Hnd Hin) as E. simpl in E.
  rewrite E, Hset. reflexivity.
Qed.

(** ** Merger *)

Lemma range_from_nonempty {R} (l : list R) z : l <> [] -> range_from z l <> [].
Proof. destruct l; simpl; congruence. Qed.

Lemma flat_map_nonempty {A B} (f : A -> list B) l :
  l <> [] -> (forall a, f a <> []) -> flat_map f l <> [].
Proof.
  destruct l as [ | a l]; [congruence | ]. intros _ Hf. simpl.
  specialize (Hf a). destruct (f a); simpl; congruence.
Qed.

Lemma merge_left_nonempty {L} (key : L -> cell) left right :
  left <> [] -> merge_left key left right <> [].
Proof.
  intros H. unfold merge_left, range_index.
  apply range_from_nonempty, flat_map_nonempty.
  - unfold rows. destruct left; simpl; congruence.
  - intros a. destruct (filter _ right); simpl; congruence.
Qed.

Lemma merge_step_index df cm gm :
  exists l : list (record * cell * cell),
    index (merge_step df cm gm) = index (range_index l).
Proof.
  unfold merge_step. eexists.
  unfold index at 1. rewrite map_map. simpl. reflexivity.
Qed.

Lemma merge_step_nonempty df cm gm : df <> [] -> merge_step df cm gm <> [].
Proof.
  intros H. unfold merge_step.
  match goal with |- map _ ?x <> [] => assert (Hx : x <> []) end.
  { apply merge_left_nonempty, merge_left_nonempty, H. }
  match goal with |- map _ ?x <> [] => destruct x end; simpl; congruence.
Qed.

Lemma at_set_sources i upd (f : frame Pending.row) :
  (forall p, Pending.source (upd p) = Pending.source p) ->
  map (fun lr => Pending.source (snd lr)) (at_set i upd f)
  = map (fun lr => Pending.source (snd lr)) f.
Proof.
  intros H. unfold at_set. rewrite map_map. apply map_ext.
  intros [l r]. simpl. destruct (cell_eqb l i); simpl; [apply H | reflexivity].
Qed.

Lemma at_set_index {R} i (upd : R -> R) (f : frame R) :
  index (at_set i upd f) = index f.
Proof.
  unfold at_set, index. rewrite map_map. apply map_ext.
  intros [l r]. simpl. destruct (cell_eqb l i); reflexivity.
Qed.

Lemma assign_loop_sources iter : forall cur g,
  map (fun lr => Pending.source (snd lr)) (fst (assign_loop iter cur g))
  = map (fun lr => Pending.source (snd lr)) cur.
Proof.
  induction iter as [ | [i row] rest IH]; intros cur g; simpl; [reflexivity | ].
  destruct (cell_eqb (Pending.EITI_ID row) (Str [])).
  - rewrite IH. apply at_set_sources. reflexivity.
  - apply IH.
Qed.

Lemma assigned_labels (key : record -> cell) unmatched g l :
  In l (index (set_index_column (fun p => key (Pending.source p)) Pending.EITI_ID
                                (fst (assign_ids unmatched g)))) ->
  exists lr, In lr unmatched /\ l = key (Pending.source (snd lr)).
Proof.
  unfold index, set_index_column. rewrite map_map. simpl.
  rewrite <- (map_map (fun lr => Pending.source (snd lr)) key).
  unfold assign_ids. rewrite assign_loop_sources.
  rewrite map_map. intros H. apply in_map_iff in H.
  destruct H as [lr [E Hin]]. exists lr. auto.
Qed.

(** When it returns, [validate_matching] returns the table of the two
    left merges: its rows are labelled by position and the identifiers
    of the unmatched rows are labelled by name, so the two
    [combine_first] find no common label to fill from. *)
Lemma validate_matching_Ok df cm gm uc ug g v :
  df <> [] ->
  (forall lr, In lr uc -> is_str (Company (Pending.source (snd lr))) = true) ->
  (forall lr, In lr ug -> is_str (Government_entity (Pending.source (snd lr))) = true) ->
  validate_matching df cm gm uc ug g = Ok v ->
  resolved v = merge_step df cm gm
  /\ assigned_companies v = fst (assign_ids uc g)
  /\ assigned_governments v = fst (assign_ids ug (snd (assign_ids uc g))).
Proof.
  intros Hne Hc Hg. unfold validate_matching.
  destruct (assign_ids uc g) as [uc' g1] eqn:E1.
  destruct (assign_ids ug g1) as [ug' g2] eqn:E2.
  pose proof (merge_step_nonempty cm gm Hne) as Hne2.
  destruct (merge_step_index df cm gm) as [l0 Hidx].
  assert (Hnd : NoDup (index (merge_step df cm gm)))
    by (rewrite Hidx; apply range_index_NoDup).
  assert (Hnum : forall l, In l (index (merge_step df cm gm)) -> is_str l = false)
    by (rewrite Hidx; apply range_index_labels).
  set (df2 := merge_step df cm gm) in *.
  destruct (combine_first (column Resolved.eiti_id_company df2) _) as [c | e] eqn:Ec;
    unfold bind at 1; [ | discriminate].
  destruct (setitem nan_resolved set_eiti_id_company df2 c) as [df3 | e] eqn:Es;
    unfold bind at 1; [ | discriminate].
  assert (E3 : df3 = df2).
  { refine (@combine_first_setitem_unaligned _ nan_resolved Resolved.eiti_id_company
              set_eiti_id_company df2 _ c df3 _ Hne2 Hnd _ Ec Es).
    - intros [r a b]; reflexivity.
    - intros l Hl Hin.
      replace uc' with (fst (assign_ids uc g)) in Hin by (rewrite E1; reflexivity).
      apply assigned_labels in Hin. destruct Hin as [lr [Hlr ->]].
      specialize (Hnum _ Hl). rewrite (Hc lr Hlr) in Hnum. discriminate. }
  subst df3.
  destruct (combine_first (column Resolved.eiti_id_government df2) _) as [c' | e] eqn:Ec';
    unfold bind at 1; [ | discriminate].
  destruct (setitem nan_resolved set_eiti_id_government df2 c') as [df4 | e] eqn:Es';
    unfold bind at 1; [ | discriminate].
  assert (E4 : df4 = df2).
  { refine (@combine_first_setitem_unaligned _ nan_resolved Resolved.eiti_id_government
              set_eiti_id_government df2 _ c' df4 _ Hne2 Hnd _ Ec' Es').
    - intros [r a b]; reflexivity.
    - intros l Hl Hin.
      replace ug' with (fst (assign_ids ug g1)) in Hin by (rewrite E2; reflexivity).
      apply assigned_labels in Hin. destruct Hin as [lr [Hlr ->]].
      specialize (Hnum _ Hl). rewrite (Hg lr Hlr) in Hnum. discriminate. }
  subst df4. intros H. inversion H. simpl.
  rewrite E2. simpl. repeat split; reflexivity.
Qed.

(** ** The run, stage by stage *)

Lemma display_loop_sources t remote_df iter : forall cur out,
  display_loop t remote_df iter cur = Ok out ->
  map (fun lr => Pending.source (snd lr)) out
  = map (fun lr => Pending.source (snd lr)) cur
  /\ index out = index cur.
Proof.
  induction iter as [ | [i row] rest IH]; intros cur out; cbn [display_loop].
  - intros H. inversion H. auto.
  - set (options := No_potential_match :: map (remote_column t) (rows remote_df)).
    set (chosen := nth (selectbox t i options) options No_potential_match).
    destruct (negb (cell_eqb chosen No_potential_match)).
    + destruct (filter _ (rows remote_df)) as [ | e es]; unfold bind at 1;
        [discriminate | ].
      intros H. destruct (IH _ _ H) as [H1 H2].
      rewrite H1, H2, !at_set_sources, !at_set_index by reflexivity. auto.
    + unfold bind at 1. intros H. destruct (IH _ _ H) as [H1 H2].
      rewrite H1, H2, at_set_sources, at_set_index by reflexivity. auto.
Qed.

Lemma pending_sources unmatched potential lr :
  In lr (pending unmatched potential) -> In (Pending.source (snd lr)) (rows unmatched).
Proof.
  unfold pending. intros H. apply in_map_iff in H.
  destruct H as [[[l r] [l' v]] [<- Hin]]. simpl.
  apply in_combine_l in Hin. unfold rows. apply (in_map snd _ _ Hin).
Qed.

Lemma not_isin_incl {R} (key : R -> cell) df values lr :
  In lr (not_isin key df values) -> In lr df /\ ~ In (key (snd lr)) values.
Proof.
  unfold not_isin. intros H. apply filter_In in H. destruct H as [H1 H2].
  split; [exact H1 | ]. intros Hin. apply mem_In in Hin.
  rewrite Hin in H2. discriminate.
Qed.

Lemma preprocess_dataset_Ok df df' :
  preprocess_dataset df = Ok df' ->
  Forall2 (fun lr lr' =>
             fst lr' = fst lr /\
             exists c g, Company (snd lr) = Str c
                         /\ Government_entity (snd lr) = Str g
                         /\ snd lr' = {| Company := Str (upper (unidecode c));
                                         Government_entity := Str (upper (unidecode g));
                                         Country := Country (snd lr);
                                         passthrough := passthrough (snd lr) |})
          df df'.
Proof.
  unfold preprocess_dataset.
  destruct (apply_column Company set_Company df) as [df1 | e] eqn:E1; simpl;
    [ | discriminate].
  intros E2.
  pose proof (apply_column_Ok _ _ _ E1) as F1.
  pose proof (apply_column_Ok _ _ _ E2) as F2.
  clear E1 E2. revert df' F2.
  induction F1 as [ | [l r] [l1 r1] df df1 [Hl [c [Hc Hr]]] _ IH]; intros df' F2;
    inversion F2 as [ | x [l2 r2] y df2 [Hl2 [g [Hg Hr2]]] F2']; subst; constructor.
  - simpl in *. split; [congruence | ]. exists c, g. subst r1. simpl in *.
    repeat split; auto.
  - apply IH, F2'.
Qed.

(** What a run that ends without an exception went through. *)
Lemma main_inv uploaded remote s :
  main uploaded remote = Ok s ->
  exists first loaded pc pg uc ug,
    hd_error (range_index uploaded) = Some first
    /\ load_remote_dataset (range_index remote) (Country (snd first)) = Ok loaded
    /\ preprocess_dataset (range_index uploaded) = Ok (df_normalized s)
    /\ apply_column Remote.company_name set_company_name (fst loaded)
        = Ok (unique_companies s)
    /\ apply_column Remote.government_entity set_government_entity (snd loaded)
        = Ok (unique_governments s)
    /\ company_matches s
        = merge_inner Company Remote.company_name (df_normalized s) (unique_companies s)
    /\ gov_matches s
        = merge_inner Government_entity Remote.government_entity
                      (df_normalized s) (unique_governments s)
    /\ display_unmatched
          (pending (not_isin Company (df_normalized s)
                             (map (fun m => Company (fst m)) (rows (company_matches s))))
                   pc)
          (unique_companies s) CompanyT = Ok uc
    /\ display_unmatched
          (pending (not_isin Government_entity (df_normalized s)
                             (map (fun m => Government_entity (fst m))
                                  (rows (gov_matches s))))
                   pg)
          (unique_governments s) GovernmentT = Ok ug
    /\ (if button
        then exists v,
            validate_matching (df_normalized s) (company_matches s) (gov_matches s)
                              uc ug 0 = Ok v
            /\ output s = Some (resolved v)
            /\ unmatched_companies s = assigned_companies v
            /\ unmatched_governments s = assigned_governments v
        else output s = None /\ unmatched_companies s = uc
             /\ unmatched_governments s = ug).
Proof.
  unfold main.
  destruct (range_index uploaded) as [ | first df0] eqn:Ed; simpl; [discriminate | ].
  destruct (load_remote_dataset (range_index remote) (Country (snd first)))
    as [loaded | e] eqn:El; simpl; [ | discriminate].
  destruct (preprocess_dataset (first :: df0)) as [df | e] eqn:Ep; simpl; [ | discriminate].
  destruct (apply_column Remote.company_name set_company_name (fst loaded))
    as [ucs | e] eqn:Ec; simpl; [ | discriminate].
  destruct (apply_column Remote.government_entity set_government_entity (snd loaded))
    as [ugs | e] eqn:Eg; simpl; [ | discriminate].
  destruct (get_potential_matches (column Company _) (column Remote.company_name ucs))
    as [pc | e] eqn:Epc; simpl; [ | discriminate].
  destruct (get_potential_matches (column Government_entity _)
                                  (column Remote.government_entity ugs))
    as [pg | e] eqn:Epg; simpl; [ | discriminate].
  destruct (display_unmatched (pending _ pc) ucs CompanyT) as [uc | e] eqn:Edc;
    simpl; [ | discriminate].
  destruct (display_unmatched (pending _ pg) ugs GovernmentT) as [ug | e] eqn:Edg;
    simpl; [ | discriminate].
  destruct button.
  - destruct (validate_matching df _ _ uc ug 0) as [v | e] eqn:Ev; simpl; [ | discriminate].
    intros H. inversion H. subst s. simpl.
    exists first, loaded, pc, pg, uc, ug.
    repeat (split; [first [reflexivity | assumption] | ]).
    exists v. repeat split; auto.
  - intros H. inversion H. subst s. simpl.
    exists first, loaded, pc, pg, uc, ug.
    repeat (split; [first [reflexivity | assumption] | ]).
    repeat split; auto.
Qed.

(** ** Rows of the merges *)

Lemma merge_inner_rows {L R} (kl : L -> cell) (kr : R -> cell) left right l r :
  In (l, r) (rows (merge_inner kl kr left right))
  <-> In l (rows left) /\ In r (rows right) /\ kl l = kr r.
Proof.
  unfold merge_inner. rewrite range_index_rows, in_flat_map. split.
  - intros [x [Hx Hin]]. apply in_map_iff in Hin.
    destruct Hin as [y [E Hy]]. inversion E; subst.
    apply filter_In in Hy. destruct Hy as [Hy Hk].
    apply cell_eqb_eq in Hk. auto.
  - intros [Hl [Hr Hk]]. exists l. split; [exact Hl | ].
    apply in_map, filter_In. split; [exact Hr | apply cell_eqb_eq, Hk].
Qed.

Lemma filter_nil_iff {A} (f : A -> bool) l :
  filter f l = [] <-> forall a, In a l -> f a = false.
Proof.
  induction l as [ | x l IH]; simpl; [tauto | ].
  destruct (f x) eqn:E; split.
  - discriminate.
  - intros H. specialize (H x (or_introl eq_refl)). congruence.
  - intros H a [<- | Ha]; [exact E | apply IH; assumption].
  - intros H. apply IH. intros a Ha. apply H. auto.
Qed.

Lemma merge_left_rows {L} (key : L -> cell) left right (x : L * cell) :
  In x (rows (merge_left key left right))
  <-> In (fst x) (rows left)
      /\ ((snd x = NaN /\ forall kv, In kv right -> fst kv <> key (fst x))
          \/ exists kv, In kv right /\ fst kv = key (fst x) /\ snd x = snd kv).
Proof.
  unfold merge_left. rewrite range_index_rows, in_flat_map. split.
  - intros [l [Hl Hin]].
    destruct (filter (fun kv => cell_eqb (key l) (fst kv)) right) as [ | m ms] eqn:Ef.
    + destruct Hin as [<- | []]. simpl. split; [exact Hl | left].
      split; [reflexivity | ]. intros kv Hkv E.
      rewrite filter_nil_iff in Ef. specialize (Ef kv Hkv).
      apply cell_eqb_neq in Ef. congruence.
    + apply in_map_iff in Hin. destruct Hin as [kv [<- Hkv]]. simpl.
      split; [exact Hl | right]. rewrite <- Ef in Hkv.
      apply filter_In in Hkv. destruct Hkv as [Hkv E]. apply cell_eqb_eq in E.
      exists kv. auto.
  - intros [Hl [[Hn Hno] | [kv [Hkv [E Hs]]]]]; exists (fst x); (split; [exact Hl | ]).
    + assert (Ef : filter (fun kv => cell_eqb (key (fst x)) (fst kv)) right = []).
      { apply filter_nil_iff. intros kv Hkv. apply cell_eqb_neq.
        intros E. apply (Hno kv Hkv). auto. }
      rewrite Ef. left. destruct x; simpl in *; congruence.
    + assert (Hf : In kv (filter (fun kv => cell_eqb (key (fst x)) (fst kv)) right)).
      { apply filter_In. split; [exact Hkv | apply cell_eqb_eq; auto]. }
      destruct (filter (fun kv => cell_eqb (key (fst x)) (fst kv)) right) as [ | m ms];
        [contradiction | ].
      apply in_map_iff. exists kv. split; [ | exact Hf].
      destruct x; simpl in *; congruence.
Qed.

Lemma merge_step_rows df cm gm o :
  In o (rows (merge_step df cm gm))
  <-> In (Resolved.source o) (rows df)
      /\ attached (Company (Resolved.source o)) (Resolved.eiti_id_company o)
                  (map (fun m => (Company (fst m), Remote.eiti_id_company (snd m)))
                       (rows cm))
      /\ attached (Government_entity (Resolved.source o))
                  (Resolved.eiti_id_government o)
                  (map (fun m => (Government_entity (fst m),
                                  Remote.eiti_id_government (snd m)))
                       (rows gm)).
Proof.
  unfold merge_step, attached.
  unfold rows at 1. rewrite map_map. simpl.
  rewrite <- (map_map snd (fun x : record * cell * cell =>
                             {| Resolved.source := fst (fst x);
                                Resolved.eiti_id_company := snd (fst x);
                                Resolved.eiti_id_government := snd x |})).
  fold (rows (merge_left (fun x : record * cell => Government_entity (fst x))
                (merge_left Company df
                   (map (fun m => (Company (fst m), Remote.eiti_id_company (snd m)))
                        (rows cm)))
                (map (fun m => (Government_entity (fst m),
                                Remote.eiti_id_government (snd m)))
                     (rows gm)))).
  rewrite in_map_iff. split.
  - intros [[[r a] b] [<- Hin]]. simpl.
    apply merge_left_rows in Hin. simpl in Hin. destruct Hin as [H1 H2].
    apply merge_left_rows in H1. simpl in H1. destruct H1 as [H0 H1]. auto.
  - intros [H0 [H1 H2]]. destruct o as [r a b]. simpl in *.
    exists (r, a, b). split; [reflexivity | ].
    apply merge_left_rows. simpl. split; [ | exact H2].
    apply merge_left_rows. simpl. auto.
Qed.


Lemma range_from_length {R} (l : list R) : forall z,
  List.length (range_from z l) = List.length l.
Proof. induction l; intros z; simpl; [ | rewrite IHl]; reflexivity. Qed.




(** ** The table a run returns *)

Lemma main_frames uploaded remote s :
  main uploaded remote = Ok s ->
  df_normalized s <> []
  /\ List.length (df_normalized s) = List.length uploaded
  /\ forall r, In r (rows (df_normalized s)) ->
               is_str (Company r) = true /\ is_str (Government_entity r) = true.
Proof.
  intros H. destruct (main_inv _ _ H) as (first & loaded & pc & pg & uc & ug & Hh & _ & Hp & _).
  pose proof (preprocess_dataset_Ok _ Hp) as F.
  split; [ | split].
  - destruct (range_index uploaded); [discriminate | ].
    inversion F. congruence.
  - rewrite <- (Forall2_length F). unfold range_index. apply range_from_length.
  - intros r Hr. unfold rows in Hr. apply in_map_iff in Hr.
    destruct Hr as [lr' [<- Hin]].
    destruct (Forall2_In_r _ F Hin) as [lr [_ [_ [c [g [_ [_ E]]]]]]].
    rewrite E. simpl. auto.
Qed.

Lemma displayed_sources unmatched potential remote_df t out (key : record -> cell) df values :
  unmatched = not_isin key df values ->
  display_unmatched (pending unmatched potential) remote_df t = Ok out ->
  forall lr, In lr out ->
             In (Pending.source (snd lr)) (rows df)
             /\ ~ In (key (Pending.source (snd lr))) values.
Proof.
  intros -> Hd lr Hin.
  destruct (display_loop_sources _ _ _ _ Hd) as [Hs _].
  pose proof (in_map (fun lr => Pending.source (snd lr)) _ _ Hin) as Hin'.
  rewrite Hs in Hin'. apply in_map_iff in Hin'.
  destruct Hin' as [lr' [E Hlr']]. simpl in E. rewrite <- E.
  apply pending_sources in Hlr'. unfold rows in Hlr'.
  apply in_map_iff in Hlr'. destruct Hlr' as [x [Ex Hx]].
  apply not_isin_incl in Hx. destruct Hx as [Hx Hn].
  rewrite <- Ex. split; [apply (in_map snd _ _ Hx) | exact Hn].
Qed.

(** The table a run returns is the table of the two left merges: what
    the assigner generated and what the operator accepted is in the
    unmatched frames only. *)
Lemma main_output uploaded remote s out :
  main uploaded remote = Ok s -> output s = Some out ->
  out = merge_step (df_normalized s) (company_matches s) (gov_matches s).
Proof.
  intros H Ho.
  destruct (main_frames _ _ H) as [Hne [_ Hstr]].
  destruct (main_inv _ _ H)
    as (first & loaded & pc & pg & uc & ug & _ & _ & _ & _ & _ & _ & _ & Hdc & Hdg & Hb).
  destruct button; [ | destruct Hb as [Hb _]; congruence].
  destruct Hb as [v [Hv [Hout _]]].
  rewrite Hout in Ho. inversion Ho. subst out.
  assert (Hc : forall lr, In lr uc -> is_str (Company (Pending.source (snd lr))) = true).
  { intros lr Hlr.
    destruct (@displayed_sources _ pc (unique_companies s) CompanyT uc Company
                (df_normalized s) _ eq_refl Hdc lr Hlr) as [Hin _].
    apply Hstr, Hin. }
  assert (Hg : forall lr, In lr ug ->
                          is_str (Government_entity (Pending.source (snd lr))) = true).
  { intros lr Hlr.
    destruct (@displayed_sources _ pg (unique_governments s) GovernmentT ug
                Government_entity (df_normalized s) _ eq_refl Hdg lr Hlr) as [Hin _].
    apply Hstr, Hin. }
  destruct (@validate_matching_Ok _ _ _ _ _ _ _ Hne Hc Hg Hv) as [E _]. exact E.
Qed.

(** ** Exact matches in the returned table *)

Section OneEntityType.

Variables (kl : record -> cell) (kr id : Remote.row -> cell).
Variables (df : frame record) (registry : frame Remote.row).

Local Abbreviation matches :=
  (map (fun m => (kl (fst m), id (snd m))) (rows (merge_inner kl kr df registry))).

Lemma matches_In kv :
  In kv matches <->
  exists r e, In r (rows df) /\ In e (rows registry) /\ kl r = kr e
              /\ kv = (kl r, id e).
Proof.
  rewrite in_map_iff. split.
  - intros [[r e] [<- Hin]]. apply merge_inner_rows in Hin.
    exists r, e. simpl. tauto.
  - intros [r [e [Hr [He [Hk ->]]]]]. exists (r, e). split; [reflexivity | ].
    apply merge_inner_rows. auto.
Qed.


Lemma attached_unmatched r v :
  (forall e, In e (rows registry) -> kr e <> kl r) ->
  attached (kl r) v matches -> v = NaN.
Proof.
  intros Hno [[Hv _] | [kv [Hkv [Hfst Hv]]]]; [exact Hv | ].
  apply matches_In in Hkv. destruct Hkv as [r' [e' [_ [He' [Hk' ->]]]]].
  simpl in *. exfalso. apply (Hno e' He'). congruence.
Qed.


End OneEntityType.




(** X9. In the table a run returns, the row of a record whose normalised
    name is no reference entity's has no identifier: what the assigner
    generated for it, or the operator accepted, is not in the table. *)
Lemma unmatched_identifier_missing uploaded remote s out o :
  main uploaded remote = Ok s -> output s = Some out -> In o (rows out) ->
  ((forall e, In e (rows (unique_companies s)) ->
              Remote.company_name e <> Company (Resolved.source o)) ->
   Resolved.eiti_id_company o = NaN)
  /\ ((forall e, In e (rows (unique_governments s)) ->
                 Remote.government_entity e <> Government_entity (Resolved.source o)) ->
      Resolved.eiti_id_government o = NaN).
Proof.
  intros H Ho Hin. rewrite (main_output _ _ H Ho) in Hin.
  destruct (main_inv _ _ H)
    as (first & loaded & pc & pg & uc & ug & _ & _ & _ & _ & _ & Ecm & Egm & _).
  apply merge_step_rows in Hin. destruct Hin as [Hr [Ha Hb]].
  rewrite Ecm in Ha. rewrite Egm in Hb. split; intros Hno.
  - apply (@attached_unmatched Company Remote.company_name Remote.eiti_id_company
             (df_normalized s) (unique_companies s) _ _ Hno Ha).
  - apply (@attached_unmatched Government_entity Remote.government_entity
             Remote.eiti_id_government (df_normalized s) (unique_governments s)
             _ _ Hno Hb).
Qed.


(** C7, as the code has it. Of the two registry tables a run loads, the
    core rewrites the name column it matches on, with the normalised
    names: [company_name] in the company table, [government_entity] in
    the government table. Every other field, the identifiers among
    them, every label and the rows themselves are as loaded. *)
Theorem registry_names_normalised_rest_kept uploaded remote s :
  main uploaded remote = Ok s ->
  exists first loaded,
    hd_error (range_index uploaded) = Some first
    /\ load_remote_dataset (range_index remote) (Country (snd first)) = Ok loaded
    /\ Forall2 (fun e e' =>
                  fst e' = fst e
                  /\ preprocess_text (Remote.company_name (snd e))
                     = Ok (Remote.company_name (snd e'))
                  /\ snd e' = set_company_name (snd e) (Remote.company_name (snd e')))
               (fst loaded) (unique_companies s)
    /\ Forall2 (fun e e' =>
                  fst e' = fst e
                  /\ preprocess_text (Remote.government_entity (snd e))
                     = Ok (Remote.government_entity (snd e'))
                  /\ snd e' = set_government_entity (snd e)
                                (Remote.government_entity (snd e')))
               (snd loaded) (unique_governments s).
Proof.
  intros H.
  destruct (main_inv _ _ H)
    as (first & loaded & pc & pg & uc & ug & Hh & Hl & _ & Hc & Hg & _).
  exists first, loaded. repeat (split; [assumption | ]). split.
  - eapply Forall2_impl; [ | apply (apply_column_Ok _ _ _ Hc)].
    intros e e' [Hf [n [Hn He]]]. simpl in *. rewrite He, Hn. simpl. auto.
  - eapply Forall2_impl; [ | apply (apply_column_Ok _ _ _ Hg)].
    intros e e' [Hf [n [Hn He]]]. simpl in *. rewrite He, Hn. simpl. auto.
Qed.


(** ** Labels of the unmatched frames *)

Lemma mapM_Ok {A B} (f : A -> result B) l l' :
  mapM f l = Ok l' -> Forall2 (fun a b => f a = Ok b) l l'.
Proof.
  revert l'. induction l as [ | a l IH]; simpl; intros l' H.
  - inversion H. constructor.
  - destruct (f a) as [b | e] eqn:Ea; simpl in H; [ | discriminate].
    destruct (mapM f l) as [bs | e] eqn:El; simpl in H; [ | discriminate].
    inversion H. constructor; auto.
Qed.

Lemma get_potential_matches_index unmatched_series remote_col potential :
  get_potential_matches unmatched_series remote_col = Ok potential ->
  index potential = index unmatched_series.
Proof.
  intros H. apply mapM_Ok in H. unfold index.
  induction H as [ | [l x] [l' v] u p Hh _ IH]; simpl; [reflexivity | ].
  f_equal; [ | exact IH].
  simpl in Hh. destruct (extractOne x remote_col) as [[b | ] | e];
    simpl in Hh; inversion Hh; reflexivity.
Qed.

Lemma pending_index (unmatched : frame record) : forall (potential : series),
  index potential = index unmatched ->
  index (pending unmatched potential) = index unmatched.
Proof.
  unfold pending, index.
  induction unmatched as [ | [l r] u IH]; intros [ | [l' v] p] H;
    simpl in *; try reflexivity; try discriminate.
  injection H as H1 H2. f_equal. apply IH. exact H2.
Qed.

Lemma filter_index_NoDup {R} (keep : label * R -> bool) (f : frame R) :
  NoDup (index f) -> NoDup (index (filter keep f)).
Proof.
  unfold index. induction f as [ | [l r] f IH]; simpl; intros H; [constructor | ].
  apply NoDup_cons_iff in H. destruct H as [Hl Hnd].
  destruct (keep (l, r)); [ | apply IH, Hnd].
  simpl. constructor; [ | apply IH, Hnd].
  intros Hin. apply Hl. apply in_map_iff in Hin.
  destruct Hin as [x [E Hx]]. apply filter_In in Hx.
  rewrite <- E. apply (in_map fst _ _ (proj1 Hx)).
Qed.

Lemma assign_loop_index iter : forall cur g,
  index (fst (assign_loop iter cur g)) = index cur.
Proof.
  induction iter as [ | [i row] rest IH]; intros cur g; simpl; [reflexivity | ].
  destruct (cell_eqb (Pending.EITI_ID row) (Str [])).
  - rewrite IH. apply at_set_index.
  - apply IH.
Qed.

Lemma preprocess_dataset_index df df' :
  preprocess_dataset df = Ok df' -> index df' = index df.
Proof.
  intros H. apply preprocess_dataset_Ok in H. unfold index.
  induction H as [ | lr lr' df df' [Hl _] _ IH]; simpl; congruence.
Qed.

(** The frames of unmatched rows keep the labels [read_csv] gave the
    uploaded rows, which are distinct: the loops of [display_unmatched]
    and [validate_matching] address one row at a time. *)
Lemma main_unmatched_labels uploaded remote s :
  main uploaded remote = Ok s ->
  NoDup (index (unmatched_companies s)) /\ NoDup (index (unmatched_governments s)).
Proof.
  intros H.
  destruct (main_frames _ _ H) as [Hne [_ Hstr]].
  pose proof H as H'. unfold main in H'.
  destruct (range_index uploaded) as [ | first df0] eqn:Ed; simpl in H'; [discriminate | ].
  destruct (load_remote_dataset (range_index remote) (Country (snd first)))
    as [loaded | e]; simpl in H'; [ | discriminate].
  destruct (preprocess_dataset (first :: df0)) as [df | e] eqn:Ep; simpl in H';
    [ | discriminate].
  destruct (apply_column Remote.company_name set_company_name (fst loaded))
    as [ucs | e]; simpl in H'; [ | discriminate].
  destruct (apply_column Remote.government_entity set_government_entity (snd loaded))
    as [ugs | e]; simpl in H'; [ | discriminate].
  destruct (get_potential_matches (column Company _) (column Remote.company_name ucs))
    as [pc | e] eqn:Epc; simpl in H'; [ | discriminate].
  destruct (get_potential_matches (column Government_entity _)
                                  (column Remote.government_entity ugs))
    as [pg | e] eqn:Epg; simpl in H'; [ | discriminate].
  destruct (display_unmatched (pending _ pc) ucs CompanyT) as [uc | e] eqn:Edc;
    simpl in H'; [ | discriminate].
  destruct (display_unmatched (pending _ pg) ugs GovernmentT) as [ug | e] eqn:Edg;
    simpl in H'; [ | discriminate].
  assert (Hdf : NoDup (index df)).
  { rewrite (preprocess_dataset_index _ Ep), <- Ed. apply range_index_NoDup. }
  assert (Huc : NoDup (index uc)).
  { destruct (display_loop_sources _ _ _ _ Edc) as [_ ->].
    apply get_potential_matches_index in Epc. rewrite index_column in Epc.
    rewrite (pending_index _ _ Epc). apply filter_index_NoDup, Hdf. }
  assert (Hug : NoDup (index ug)).
  { destruct (display_loop_sources _ _ _ _ Edg) as [_ ->].
    apply get_potential_matches_index in Epg. rewrite index_column in Epg.
    rewrite (pending_index _ _ Epg). apply filter_index_NoDup, Hdf. }
  destruct button.
  - destruct (validate_matching df _ _ uc ug 0) as [v | e] eqn:Ev; simpl in H';
      [ | discriminate].
    inversion H'. subst s. simpl in *.
    assert (Hc : forall lr, In lr uc -> is_str (Company (Pending.source (snd lr))) = true).
    { intros lr Hlr.
      destruct (@displayed_sources _ pc ucs CompanyT uc Company df _ eq_refl Edc lr Hlr)
        as [Hin _].
      apply Hstr, Hin. }
    assert (Hg : forall lr, In lr ug ->
                            is_str (Government_entity (Pending.source (snd lr))) = true).
    { intros lr Hlr.
      destruct (@displayed_sources _ pg ugs GovernmentT ug Government_entity df _
                  eq_refl Edg lr Hlr) as [Hin _].
      apply Hstr, Hin. }
    destruct (@validate_matching_Ok _ _ _ _ _ _ _ Hne Hc Hg Ev) as [_ [-> ->]].
    unfold assign_ids. rewrite !assign_loop_index. auto.
  - inversion H'. subst s. simpl. auto.
Qed.

(** * Further properties *)

(** ** Registry loading *)

Lemma combine_map_self {A B} (g : A -> B) (l : list A) :
  combine l (map g l) = map (fun x => (x, g x)) l.
Proof. induction l as [ | a l IH]; simpl; [ | rewrite IH]; reflexivity. Qed.

Lemma str_upper_Ok col ups :
  str_upper col = Ok ups ->
  ups = map (fun c => match c with Str s => Str (upper s) | _ => NaN end) col.
Proof.
  unfold str_upper. destruct col as [ | c col]; [inversion 1; reflexivity | ].
  destruct (has_str (c :: col)); [inversion 1; reflexivity | discriminate].
Qed.

Lemma country_matches k c :
  elem_eqb (match k with Str s => Str (upper s) | _ => NaN end) (Str (upper c)) = true
  <-> exists s, k = Str s /\ upper s = upper c.
Proof.
  unfold elem_eqb. destruct k as [s | | z]; simpl.
  - rewrite cell_eqb_eq. split.
    + intros H. inversion H. exists s. auto.
    + intros [s' [E H]]. inversion E. subst. rewrite H. reflexivity.
  - split; [discriminate | intros [s [E _]]; discriminate].
  - split; [discriminate | intros [s [E _]]; discriminate].
Qed.

Lemma drop_duplicates_from_spec {R} (key : R -> cell) (f : frame R) : forall seen,
  NoDup (map (fun lr => key (snd lr)) (drop_duplicates_from key seen f))
  /\ (forall lr, In lr (drop_duplicates_from key seen f) ->
                 In lr f /\ ~ In (key (snd lr)) seen)
  /\ (forall lr, In lr f ->
                 In (key (snd lr)) seen
                 \/ exists x, In x (drop_duplicates_from key seen f)
                              /\ key (snd x) = key (snd lr)).
Proof.
  induction f as [ | a f IH]; intros seen; simpl.
  - split; [constructor | ]. split; intros lr []; contradiction.
  - destruct (mem (key (snd a)) seen) eqn:E.
    + apply mem_In in E. destruct (IH seen) as [H1 [H2 H3]].
      split; [exact H1 | ]. split.
      * intros lr Hlr. destruct (H2 lr Hlr). auto.
      * intros lr [<- | Hlr]; [left; exact E | apply H3, Hlr].
    + assert (Hn : ~ In (key (snd a)) seen).
      { intros Hin. apply mem_In in Hin. congruence. }
      destruct (IH (key (snd a) :: seen)) as [H1 [H2 H3]].
      split; [ | split].
      * simpl. constructor; [ | exact H1].
        intros Hin. apply in_map_iff in Hin. destruct Hin as [x [Ex Hx]].
        destruct (H2 x Hx) as [_ Hx']. apply Hx'. simpl. auto.
      * intros lr [<- | Hlr]; [auto | ].
        destruct (H2 lr Hlr) as [Hf Hs]. split; [auto | ].
        intros Hin. apply Hs. simpl. auto.
      * intros lr [<- | Hlr]; [right; exists a; simpl; auto | ].
        destruct (H3 lr Hlr) as [[E' | Hin] | [x [Hx Ex]]].
        -- right. exists a. simpl. auto.
        -- left. exact Hin.
        -- right. exists x. simpl. auto.
Qed.

(** X1. [load_remote_dataset] returns two sub-tables of the remote table:
    rows of the country asked for, compared in upper case, one row for
    every company identifier in the first and for every government
    identifier in the second, and no identifier of the country is lost. *)
Theorem load_remote_dataset_one_row_per_identifier remote_df country uc ug :
  load_remote_dataset remote_df country = Ok (uc, ug) ->
  NoDup (map (fun lr => Remote.eiti_id_company (snd lr)) uc)
  /\ NoDup (map (fun lr => Remote.eiti_id_government (snd lr)) ug)
  /\ (forall lr, In lr uc \/ In lr ug ->
                 In lr remote_df
                 /\ exists c k, country = Str c /\ Remote.country (snd lr) = Str k
                                /\ upper k = upper c)
  /\ (forall lr c k,
         In lr remote_df -> country = Str c ->
         Remote.country (snd lr) = Str k -> upper k = upper c ->
         (exists x, In x uc /\ Remote.eiti_id_company (snd x)
                               = Remote.eiti_id_company (snd lr))
         /\ (exists y, In y ug /\ Remote.eiti_id_government (snd y)
                                  = Remote.eiti_id_government (snd lr))).
Proof.
  unfold load_remote_dataset.
  destruct (str_upper (map Remote.country (rows remote_df))) as [ups | e] eqn:Eu;
    simpl; [ | discriminate].
  destruct country as [c0 | | z]; simpl; try discriminate.
  apply str_upper_Ok in Eu. subst ups.
  unfold rows. rewrite !map_map, combine_map_self.
  set (filtered :=
         map fst (filter (fun lu : label * Remote.row * cell =>
                            elem_eqb (snd lu) (Str (upper c0)))
                         (map (fun x : label * Remote.row =>
                                 (x, match Remote.country (snd x) with
                                     | Str s => Str (upper s)
                                     | _ => NaN
                                     end)) remote_df))).
  assert (Hf : forall lr, In lr filtered <->
                          In lr remote_df
                          /\ exists s, Remote.country (snd lr) = Str s
                                       /\ upper s = upper c0).
  { intros lr. unfold filtered. rewrite in_map_iff. split.
    - intros [[x u] [E Hin]]. simpl in E. subst x.
      apply filter_In in Hin. destruct Hin as [Hin Hk].
      apply in_map_iff in Hin. destruct Hin as [y [Ey Hy]].
      inversion Ey. subst. simpl in Hk. apply country_matches in Hk. auto.
    - intros [Hin Hk]. apply country_matches in Hk.
      exists (lr, match Remote.country (snd lr) with
                  | Str s => Str (upper s)
                  | _ => NaN
                  end).
      split; [reflexivity | ]. apply filter_In. split; [ | exact Hk].
      apply in_map_iff. exists lr. auto. }
  intros H. inversion H. subst uc ug. clear H.
  unfold drop_duplicates.
  destruct (drop_duplicates_from_spec Remote.eiti_id_company filtered [])
    as [C1 [C2 C3]].
  destruct (drop_duplicates_from_spec Remote.eiti_id_government filtered [])
    as [G1 [G2 G3]].
  split; [exact C1 | ]. split; [exact G1 | ]. split.
  - intros lr [Hlr | Hlr]; [apply C2 in Hlr | apply G2 in Hlr];
      destruct Hlr as [Hlr _]; apply Hf in Hlr; destruct Hlr as [Hin [s [Es Hs]]];
      (split; [exact Hin | exists c0, s; auto]).
  - intros lr c k Hin Ec Ek Hk. inversion Ec. subst c.
    assert (Hlr : In lr filtered) by (apply Hf; split; [exact Hin | exists k; auto]).
    split.
    + destruct (C3 lr Hlr) as [[] | Hx]. exact Hx.
    + destruct (G3 lr Hlr) as [[] | Hx]. exact Hx.
Qed.

(** ** Normal forms *)

Lemma upper_no_lower s :
  forallb is_ascii s = true ->
  forall c, In c (upper s) -> (c < 128)%N /\ ~ (97 <= c <= 122)%N.
Proof.
  induction s as [ | a s IH]; simpl; [intros _ c [] | ].
  intros H. apply andb_true_iff in H. destruct H as [Ha Hs].
  rewrite Ha. simpl. intros c [<- | Hc]; [ | apply IH; assumption].
  unfold is_ascii in Ha. apply N.ltb_lt in Ha. unfold ascii_upper.
  destruct ((97 <=? a) && (a <=? 122))%N eqn:E.
  - apply andb_true_iff in E. destruct E as [E1 E2].
    apply N.leb_le in E1. apply N.leb_le in E2. lia.
  - apply andb_false_iff in E. destruct E as [E | E]; apply N.leb_gt in E; lia.
Qed.

(** X2. What [preprocess_text] returns holds ASCII code points only and no
    lower-case letter, Unidecode's tables holding ASCII replacements. *)
Theorem normal_form_upper_case_ascii x y :
  (forall c, forallb is_ascii (table c) = true) ->
  preprocess_text (Str x) = Ok (Str y) ->
  forall c, In c y -> (c < 128)%N /\ ~ (97 <= c <= 122)%N.
Proof.
  intros Ht H. simpl in H. inversion H. subst y.
  apply upper_no_lower, unidecode_ascii, Ht.
Qed.

Lemma Forall2_eq_map {A B} (h : A -> B) l l' :
  Forall2 (fun a b => b = h a) l l' -> l' = map h l.
Proof. induction 1; simpl; congruence. Qed.

Lemma Forall2_right {A B} (P : A -> B -> Prop) (S : B -> Prop) l l' :
  Forall2 P l l' -> (forall a b, P a b -> S b) -> Forall S l'.
Proof. induction 1; intros HS; constructor; eauto. Qed.

Lemma Forall2_with_left {A B} (P : A -> Prop) (Q R : A -> B -> Prop) l l' :
  Forall P l -> Forall2 Q l l' -> (forall a b, P a -> Q a b -> R a b) ->
  Forall2 R l l'.
Proof.
  intros HP HQ HR. induction HQ; inversion HP; subst; constructor; auto.
Qed.

(** X3. [preprocess_dataset] is idempotent: run again on its own result it
    returns that result; and it keeps the labels, the country and the
    passthrough columns of every row. *)
Theorem preprocess_dataset_idempotent df df' :
  (forall c, forallb is_ascii (table c) = true) ->
  preprocess_dataset df = Ok df' ->
  preprocess_dataset df' = Ok df'
  /\ Forall2 (fun lr lr' => fst lr' = fst lr
                            /\ Country (snd lr') = Country (snd lr)
                            /\ passthrough (snd lr') = passthrough (snd lr))
             df df'.
Proof.
  intros Ht H. pose proof (preprocess_dataset_Ok _ H) as F. split.
  - assert (Hn : Forall (fun lr' : label * record =>
                           exists c g, Company (snd lr') = Str (upper (unidecode c))
                                       /\ Government_entity (snd lr')
                                          = Str (upper (unidecode g))) df').
    { eapply Forall2_right; [exact F | ]. intros a b [_ [c [g [_ [_ E]]]]].
      exists c, g. rewrite E. simpl. auto. }
    destruct (preprocess_dataset_total df') as [df'' H''].
    { intros lr' Hin. rewrite Forall_forall in Hn.
      destruct (Hn lr' Hin) as [c [g [Ec Eg]]]. rewrite Ec, Eg. auto. }
    rewrite H''. f_equal.
    pose proof (preprocess_dataset_Ok _ H'') as F'.
    rewrite <- (map_id df'). apply Forall2_eq_map.
    eapply Forall2_with_left; [exact Hn | exact F' | ].
    intros [l1 r1] [l2 r2] [c [g [Ec Eg]]] [Hl [c' [g' [Hc [Hg Hr]]]]].
    simpl in *. subst l2 r2. rewrite Ec in Hc. rewrite Eg in Hg.
    inversion Hc. inversion Hg. subst c' g'.
    rewrite !(normal_form_fixed _ Ht), <- Ec, <- Eg.
    destruct r1; reflexivity.
  - eapply Forall2_impl; [ | exact F].
    intros lr lr' [Hl [c [g [_ [_ E]]]]]. rewrite E. simpl. auto.
Qed.

(** X6. In a run, no registry name is the text of the selectbox's first
    option: a normalised name has no lower-case letter. So whatever
    entity the operator picks is taken as picked. *)
Theorem sentinel_is_no_registry_name uploaded remote s :
  (forall c, forallb is_ascii (table c) = true) ->
  main uploaded remote = Ok s ->
  (forall e, In e (unique_companies s) ->
             Remote.company_name (snd e) <> No_potential_match)
  /\ (forall e, In e (unique_governments s) ->
                Remote.government_entity (snd e) <> No_potential_match).
Proof.
  intros Ht H.
  destruct (main_inv _ _ H)
    as (first & loaded & pc & pg & uc & ug & _ & _ & _ & Hc & Hg & _).
  assert (Hno : forall n, Str (upper (unidecode n)) <> No_potential_match).
  { intros n E. unfold No_potential_match in E. inversion E as [E'].
    destruct (upper_no_lower (unidecode n) (unidecode_ascii n Ht) 111%N) as [_ Hl].
    - rewrite E'. simpl. tauto.
    - apply Hl. lia. }
  split; intros e He.
  - destruct (Forall2_In_r _ (apply_column_Ok _ _ _ Hc) He) as [e0 [_ [_ [n [_ E]]]]].
    rewrite E. simpl. apply Hno.
  - destruct (Forall2_In_r _ (apply_column_Ok _ _ _ Hg) He) as [e0 [_ [_ [n [_ E]]]]].
    rewrite E. simpl. apply Hno.
Qed.

(** ** Fuzzy matcher *)

Lemma fold_best (r : list (cell * nat * label)) : forall l1 acc l2,
  (forall x, In x l1 -> snd (fst x) < snd (fst acc)) ->
  (forall x, In x l2 -> snd (fst x) <= snd (fst acc)) ->
  exists m1 m2,
    l1 ++ acc :: l2 ++ r
    = m1 ++ fold_left (fun acc x => if snd (fst acc) <? snd (fst x) then x else acc)
                      r acc :: m2
    /\ (forall x, In x m1 ->
                  snd (fst x)
                  < snd (fst (fold_left
                                (fun acc x => if snd (fst acc) <? snd (fst x)
                                              then x else acc) r acc)))
    /\ (forall x, In x m2 ->
                  snd (fst x)
                  <= snd (fst (fold_left
                                 (fun acc x => if snd (fst acc) <? snd (fst x)
                                               then x else acc) r acc))).
Proof.
  induction r as [ | x r IH]; intros l1 acc l2 H1 H2; simpl.
  - exists l1, l2. rewrite app_nil_r. auto.
  - destruct (snd (fst acc) <? snd (fst x)) eqn:E.
    + apply Nat.ltb_lt in E.
      destruct (IH (l1 ++ acc :: l2) x []) as [m1 [m2 [Eq [M1 M2]]]].
      * intros y Hy. apply in_app_or in Hy. destruct Hy as [Hy | [<- | Hy]].
        -- specialize (H1 y Hy). lia.
        -- exact E.
        -- specialize (H2 y Hy). lia.
      * intros y [].
      * exists m1, m2. split; [ | auto].
        rewrite <- Eq. simpl. rewrite <- app_assoc. reflexivity.
    + apply Nat.ltb_ge in E.
      destruct (IH l1 acc (l2 ++ [x])) as [m1 [m2 [Eq [M1 M2]]]].
      * exact H1.
      * intros y Hy. apply in_app_or in Hy. destruct Hy as [Hy | [<- | []]];
          [apply H2, Hy | exact E].
      * exists m1, m2. split; [ | auto].
        rewrite <- Eq. rewrite <- app_assoc. reflexivity.
Qed.

Lemma max_by_score_first_best l b :
  max_by_score l = Some b ->
  exists m1 m2,
    l = m1 ++ b :: m2
    /\ (forall x, In x m1 -> snd (fst x) < snd (fst b))
    /\ (forall x, In x m2 -> snd (fst x) <= snd (fst b)).
Proof.
  destruct l as [ | c r]; simpl; [discriminate | ].
  intros H. inversion H.
  destruct (fold_best r [] c []) as [m1 [m2 [Eq M]]];
    [intros x [] | intros x [] | ].
  exists m1, m2. split; [exact Eq | exact M].
Qed.

Lemma mapM_map {A B} (f : A -> result B) (g : A -> B) l :
  (forall a, In a l -> f a = Ok (g a)) -> mapM f l = Ok (map g l).
Proof.
  induction l as [ | a l IH]; intros H; simpl; [reflexivity | ].
  rewrite (H a (or_introl eq_refl)), IH; [reflexivity | ].
  intros x Hx. apply H. simpl. auto.
Qed.

(** X4. On a pool that is not empty, of strings, [get_potential_matches]
    returns for every unmatched name a name of the pool that no other
    scores higher, the first of them in the pool's order. *)
Theorem get_potential_matches_first_best unmatched_series remote_col :
  remote_col <> [] ->
  (forall kc, In kc remote_col -> is_str (snd kc) = true) ->
  (forall lx, In lx unmatched_series -> is_str (snd lx) = true) ->
  exists potential,
    get_potential_matches unmatched_series remote_col = Ok potential
    /\ Forall2 (fun lx lp =>
                  fst lp = fst lx /\
                  exists q c before after k,
                    snd lx = Str q /\ snd lp = Str c /\
                    remote_col = before ++ (k, Str c) :: after /\
                    (forall k' c', In (k', Str c') before -> score q c' < score q c) /\
                    (forall k' c', In (k', Str c') after -> score q c' <= score q c))
               unmatched_series potential.
Proof.
  intros Hne Hpool Hq. unfold get_potential_matches.
  induction unmatched_series as [ | [l x] u IH]; simpl.
  - exists []. split; [reflexivity | constructor].
  - destruct IH as [p [Ep Fp]]; [intros lx Hlx; apply Hq; simpl; auto | ].
    pose proof (Hq (l, x) (or_introl eq_refl)) as Hx. simpl in Hx.
    destruct x as [q | | z]; try discriminate. clear Hx.
    set (g := fun kc : label * cell =>
                (snd kc, score q match snd kc with Str c => c | _ => [] end, fst kc)).
    assert (Es : mapM (fun kc : label * cell =>
                         match snd kc with
                         | Str c => Ok (snd kc, score q c, fst kc)
                         | _ => Raise TypeError
                         end) remote_col = Ok (map g remote_col)).
    { apply mapM_map. intros [k c] Hin. specialize (Hpool _ Hin). simpl in *.
      destruct c; try discriminate. reflexivity. }
    assert (Ex : extractOne (Str q) remote_col = Ok (max_by_score (map g remote_col))).
    { unfold extractOne. destruct remote_col; [congruence | ].
      rewrite Es. reflexivity. }
    rewrite Ex. simpl.
    destruct (max_by_score (map g remote_col)) as [b | ] eqn:Eb.
    + rewrite Ep. simpl. eexists. split; [reflexivity | ].
      constructor; [ | exact Fp]. simpl. split; [reflexivity | ].
      destruct (max_by_score_first_best _ Eb) as [m1 [m2 [Eq [M1 M2]]]].
      apply map_eq_app in Eq.
      destruct Eq as [l1 [l2' [El [E1 E2']]]].
      apply map_eq_cons in E2'. destruct E2' as [[k c] [l2 [El2 [Eb' E2]]]].
      subst l2'. pose proof (Hpool (k, c)) as Hc.
      rewrite El in Hc. specialize (Hc (in_elt _ _ _)). simpl in Hc.
      destruct c as [c | | z]; try discriminate.
      exists q, c, l1, l2, k. subst b. simpl.
      repeat split; auto.
      * intros k' c' Hin. subst m1.
        apply (in_map g) in Hin. apply M1 in Hin. exact Hin.
      * intros k' c' Hin. subst m2.
        apply (in_map g) in Hin. apply M2 in Hin. exact Hin.
    + exfalso. destruct remote_col; [congruence | discriminate].
Qed.

(** ** Operator step *)

Local Abbreviation decided t remote_df :=
  (fun before after : label * Pending.row =>
     fst after = fst before
     /\ Pending.source (snd after) = Pending.source (snd before)
     /\ Pending.Potential_Match (snd after)
        = nth (selectbox t (fst before)
                 (No_potential_match :: map (remote_column t) (rows remote_df)))
              (No_potential_match :: map (remote_column t) (rows remote_df))
              No_potential_match
     /\ (Pending.Potential_Match (snd after) = No_potential_match ->
         Pending.EITI_ID (snd after) = Pending.EITI_ID (snd before))
     /\ (Pending.Potential_Match (snd after) <> No_potential_match ->
         exists e rest,
           filter (fun e => elem_eqb (remote_column t e)
                                     (Pending.Potential_Match (snd after)))
                  (rows remote_df) = e :: rest
           /\ Pending.EITI_ID (snd after) = remote_id t e)).

Lemma index_app_cons {R} (done rest : frame R) i r r' :
  index (done ++ (i, r') :: rest) = index (done ++ (i, r) :: rest).
Proof. unfold index. rewrite !map_app. reflexivity. Qed.

Lemma display_loop_decisions t remote_df iter : forall done,
  NoDup (index (done ++ iter)) ->
  (forall e, In e (rows remote_df) -> is_str (remote_column t e) = true) ->
  exists out,
    display_loop t remote_df iter (done ++ iter) = Ok (done ++ out)
    /\ Forall2 (decided t remote_df) iter out.
Proof.
  induction iter as [ | [i row] rest IH]; intros done Hnd Hstr.
  - exists []. split; [reflexivity | constructor].
  - cbn [display_loop].
    set (options := No_potential_match :: map (remote_column t) (rows remote_df)).
    set (chosen := nth (selectbox t i options) options No_potential_match).
    rewrite (@at_set_here _ i (set_Potential_Match chosen) done rest row Hnd).
    assert (Hnd1 : NoDup (index (done ++ (i, set_Potential_Match chosen row) :: rest)))
      by (rewrite index_app_cons with (r := row); exact Hnd).
    destruct (cell_eqb chosen No_potential_match) eqn:Ech; simpl negb; cbv iota.
    + apply cell_eqb_eq in Ech. unfold bind at 1.
      destruct (IH (done ++ [(i, set_Potential_Match chosen row)])) as [out [Eo Fo]];
        [rewrite <- app_assoc; exact Hnd1 | exact Hstr | ].
      rewrite <- !app_assoc in Eo. simpl in Eo.
      exists ((i, set_Potential_Match chosen row) :: out).
      split; [exact Eo | ]. constructor; [ | exact Fo].
      simpl. fold options. fold chosen.
      repeat split; auto. intros Hne. congruence.
    + apply cell_eqb_neq in Ech.
      assert (Hin : In chosen (map (remote_column t) (rows remote_df))).
      { destruct (nth_in_or_default (selectbox t i options) options No_potential_match)
          as [H | H]; fold chosen in H; [ | congruence].
        destruct H as [H | H]; [congruence | exact H]. }
      apply in_map_iff in Hin. destruct Hin as [e0 [Ee0 He0]].
      destruct (filter (fun e => elem_eqb (remote_column t e) chosen) (rows remote_df))
        as [ | e es] eqn:Ef.
      { exfalso. rewrite filter_nil_iff in Ef. specialize (Ef e0 He0).
        unfold elem_eqb in Ef. rewrite Ee0, cell_eqb_refl, andb_true_r in Ef.
        specialize (Hstr e0 He0). rewrite Ee0 in Hstr.
        destruct chosen; simpl in *; congruence. }
      unfold bind at 1.
      rewrite (@at_set_here _ i (set_EITI_ID (remote_id t e)) done rest
                 (set_Potential_Match chosen row) Hnd1).
      set (row' := set_EITI_ID (remote_id t e) (set_Potential_Match chosen row)).
      destruct (IH (done ++ [(i, row')])) as [out [Eo Fo]];
        [rewrite <- app_assoc; simpl; rewrite index_app_cons with (r := row); exact Hnd
        | exact Hstr | ].
      rewrite <- !app_assoc in Eo. simpl in Eo.
      exists ((i, row') :: out).
      split; [exact Eo | ]. constructor; [ | exact Fo].
      simpl. fold options. fold chosen.
      repeat split; auto; [intros; congruence | ].
      intros _. exists e, es. auto.
Qed.

(** X5. On a frame of distinct labels and a registry whose names are
    strings, [display_unmatched] returns: every row gets the option the
    operator clicked as its 'Potential_Match'; a row left on 'No
    potential match' keeps its 'EITI ID'; any other row takes the
    identifier of the first registry row of the name clicked. *)
Theorem display_unmatched_decisions unmatched_df remote_df t :
  NoDup (index unmatched_df) ->
  (forall e, In e (rows remote_df) -> is_str (remote_column t e) = true) ->
  exists out,
    display_unmatched unmatched_df remote_df t = Ok out
    /\ Forall2 (decided t remote_df) unmatched_df out.
Proof.
  intros Hnd Hstr. unfold display_unmatched.
  apply (display_loop_decisions t remote_df unmatched_df [] Hnd Hstr).
Qed.

(** ** Identifier assigner *)

Lemma assign_rows_count l : forall g,
  snd (assign_rows l g)
  = g + List.length (filter (fun lr => cell_eqb (Pending.EITI_ID (snd lr)) (Str [])) l).
Proof.
  induction l as [ | [i row] r IH]; intros g; simpl; [lia | ].
  destruct (cell_eqb (Pending.EITI_ID row) (Str [])); simpl; rewrite IH; lia.
Qed.

(** X7. On a frame of distinct labels the loop calls [generate_uuid] once
    for every row whose 'EITI ID' is the empty string, and, the text of a
    uuid not being empty, leaves no row with an empty 'EITI ID'. *)
Theorem assign_ids_fills_every_open_row unmatched g :
  NoDup (index unmatched) ->
  (forall n, uuid4 n <> []) ->
  snd (assign_ids unmatched g)
  = g + List.length (filter (fun lr => cell_eqb (Pending.EITI_ID (snd lr)) (Str []))
                            unmatched)
  /\ forall lr, In lr (fst (assign_ids unmatched g)) ->
                Pending.EITI_ID (snd lr) <> Str [].
Proof.
  intros Hnd Hu. rewrite (assign_ids_rows unmatched g Hnd).
  split; [apply assign_rows_count | ].
  intros lr' Hin.
  destruct (Forall2_In_r _ (assign_rows_frame unmatched g) Hin)
    as [lr [_ [_ [Hkeep Hnew]]]].
  destruct (cell_eq_dec (Pending.EITI_ID (snd lr)) (Str [])) as [E | E].
  - destruct (Hnew E) as [n [_ ->]]. simpl. intros H. inversion H.
    apply (Hu n). assumption.
  - rewrite (Hkeep E). exact E.
Qed.

(** ** When the merger returns *)

Lemma unique_NoDup l : unique l = true <-> NoDup l.
Proof.
  induction l as [ | a l IH]; simpl.
  - split; [constructor | reflexivity].
  - rewrite andb_true_iff, negb_true_iff, IH, NoDup_cons_iff.
    split; intros [H1 H2]; (split; [ | exact H2]).
    + intros Hin. apply mem_In in Hin. congruence.
    + destruct (mem a l) eqn:E; [apply mem_In in E; contradiction | reflexivity].
Qed.

Lemma reindex_total s t : NoDup (index s) -> exists s', reindex s t = Ok s'.
Proof.
  intros H. unfold reindex.
  destruct (list_eq_dec cell_eq_dec (index s) t); [eexists; reflexivity | ].
  apply unique_NoDup in H. rewrite H. eexists; reflexivity.
Qed.

Lemma reindex_duplicates s t :
  index s <> t -> ~ NoDup (index s) -> reindex s t = Raise ValueError.
Proof.
  intros Hne Hd. unfold reindex.
  destruct (list_eq_dec cell_eq_dec (index s) t); [contradiction | ].
  destruct (unique (index s)) eqn:E; [ | reflexivity].
  apply unique_NoDup in E. contradiction.
Qed.

Lemma union_NoDup a b : NoDup a -> NoDup b -> NoDup (union a b).
Proof.
  intros Ha Hb. unfold union. apply NoDup_app.
  - exact Ha.
  - apply NoDup_filter, Hb.
  - intros y Hy Hin. apply filter_In in Hin. destruct Hin as [_ Hin].
    apply negb_true_iff in Hin.
    assert (Hm : mem y a = true) by (apply mem_In; exact Hy).
    congruence.
Qed.

Lemma combine_first_setitem_total {R} (nan_row : R) (get : R -> cell)
      (set : R -> cell -> R) (df : frame R) (other : series) :
  df <> [] -> NoDup (index df) -> NoDup (index other) ->
  exists c df', combine_first (column get df) other = Ok c
                /\ setitem nan_row set df c = Ok df'.
Proof.
  intros Hne Hnd Ho. unfold combine_first. rewrite index_column.
  destruct (reindex_total (column get df) (union (index df) (index other)))
    as [this Et]; [rewrite index_column; exact Hnd | ].
  destruct (reindex_total other (union (index df) (index other))) as [that Eo];
    [exact Ho | ].
  rewrite Et, Eo. simpl.
  eexists. rewrite (setitem_nonempty nan_row set _ Hne).
  match goal with
  | |- exists df', Ok ?c = Ok _ /\ _ => destruct (reindex_total c (index df)) as [v Ev]
  end.
  - destruct (reindex_Ok _ _ Et) as [It _]. destruct (reindex_Ok _ _ Eo) as [Io _].
    rewrite (index_zip (fun x y => if notna x then x else y) this that)
      by congruence.
    rewrite It. apply union_NoDup; assumption.
  - rewrite Ev. simpl. eexists. split; reflexivity.
Qed.

Lemma combine_first_duplicates self other :
  self <> [] -> NoDup (index self) ->
  (forall l, In l (index self) -> ~ In l (index other)) ->
  ~ NoDup (index other) ->
  combine_first self other = Raise ValueError.
Proof.
  intros Hne Hnd Hdis Hd. unfold combine_first.
  destruct (reindex_total self (union (index self) (index other))) as [this Et];
    [exact Hnd | ].
  rewrite Et. simpl. rewrite reindex_duplicates; [reflexivity | | exact Hd].
  intros E. destruct self as [ | [l v] self]; [congruence | ].
  apply (Hdis l); [simpl; auto | ].
  rewrite E. unfold union. simpl. auto.
Qed.

Lemma validate_matching_cases df cm gm uc ug g :
  df <> [] ->
  (forall lr, In lr uc -> is_str (Company (Pending.source (snd lr))) = true) ->
  (forall lr, In lr ug -> is_str (Government_entity (Pending.source (snd lr))) = true) ->
  (NoDup (map (fun lr => Company (Pending.source (snd lr))) uc)
   /\ NoDup (map (fun lr => Government_entity (Pending.source (snd lr))) ug) ->
   exists v, validate_matching df cm gm uc ug g = Ok v
             /\ resolved v = merge_step df cm gm)
  /\ (~ (NoDup (map (fun lr => Company (Pending.source (snd lr))) uc)
         /\ NoDup (map (fun lr => Government_entity (Pending.source (snd lr))) ug)) ->
      validate_matching df cm gm uc ug g = Raise ValueError).
Proof using.
  intros Hne Hc Hg.
  pose proof (merge_step_nonempty cm gm Hne) as Hne2.
  destruct (merge_step_index df cm gm) as [l0 Hidx].
  assert (Hnd : NoDup (index (merge_step df cm gm)))
    by (rewrite Hidx; apply range_index_NoDup).
  assert (Hnum : forall l, In l (index (merge_step df cm gm)) -> is_str l = false)
    by (rewrite Hidx; apply range_index_labels).
  assert (Ic : forall g0,
             index (set_index_column (fun p => Company (Pending.source p))
                                     Pending.EITI_ID (fst (assign_ids uc g0)))
             = map (fun lr => Company (Pending.source (snd lr))) uc).
  { intros g0. unfold index, set_index_column, assign_ids. rewrite map_map. simpl.
    rewrite <- (map_map (fun lr => Pending.source (snd lr)) Company).
    rewrite assign_loop_sources, map_map. reflexivity. }
  assert (Ig : forall g0,
             index (set_index_column (fun p => Government_entity (Pending.source p))
                                     Pending.EITI_ID (fst (assign_ids ug g0)))
             = map (fun lr => Government_entity (Pending.source (snd lr))) ug).
  { intros g0. unfold index, set_index_column, assign_ids. rewrite map_map. simpl.
    rewrite <- (map_map (fun lr => Pending.source (snd lr)) Government_entity).
    rewrite assign_loop_sources, map_map. reflexivity. }
  assert (Dc : forall l, In l (index (merge_step df cm gm)) ->
                         ~ In l (map (fun lr => Company (Pending.source (snd lr))) uc)).
  { intros l Hl Hin. apply in_map_iff in Hin. destruct Hin as [lr [<- Hlr]].
    specialize (Hnum _ Hl). rewrite (Hc lr Hlr) in Hnum. discriminate. }
  assert (Dg : forall l, In l (index (merge_step df cm gm)) ->
                         ~ In l (map (fun lr => Government_entity (Pending.source (snd lr)))
                                     ug)).
  { intros l Hl Hin. apply in_map_iff in Hin. destruct Hin as [lr [<- Hlr]].
    specialize (Hnum _ Hl). rewrite (Hg lr Hlr) in Hnum. discriminate. }
  unfold validate_matching.
  specialize (Ic g). destruct (assign_ids uc g) as [uc' g1]. simpl in Ic.
  specialize (Ig g1). destruct (assign_ids ug g1) as [ug' g2]. simpl in Ig.
  set (df2 := merge_step df cm gm) in *.
  set (oc := set_index_column (fun p => Company (Pending.source p)) Pending.EITI_ID uc')
    in *.
  set (og := set_index_column (fun p => Government_entity (Pending.source p))
                              Pending.EITI_ID ug') in *.
  assert (Step : forall (get : Resolved.row -> cell) set other,
             (forall r, set r (get r) = r) ->
             (forall l, In l (index df2) -> ~ In l (index other)) ->
             (NoDup (index other) ->
              exists c, combine_first (column get df2) other = Ok c
                        /\ setitem nan_resolved set df2 c = Ok df2)
             /\ (~ NoDup (index other) ->
                 combine_first (column get df2) other = Raise ValueError)).
  { intros get set other Hset Hdis. split.
    - intros Ho.
      destruct (combine_first_setitem_total nan_resolved get set other Hne2 Hnd Ho)
        as [c [df' [Ec Es]]].
      exists c. split; [exact Ec | ].
      rewrite Es. f_equal.
      apply (@combine_first_setitem_unaligned _ nan_resolved get set df2 other c df'
               Hset Hne2 Hnd Hdis Ec Es).
    - intros Ho. apply combine_first_duplicates; auto.
      + unfold column. destruct df2; simpl; congruence.
      + rewrite index_column. exact Hnd.
      + rewrite index_column. exact Hdis. }
  destruct (Step Resolved.eiti_id_company set_eiti_id_company oc) as [Sc1 Sc2];
    [intros [r a b]; reflexivity | rewrite Ic; exact Dc | ].
  destruct (Step Resolved.eiti_id_government set_eiti_id_government og) as [Sg1 Sg2];
    [intros [r a b]; reflexivity | rewrite Ig; exact Dg | ].
  rewrite Ic in Sc1, Sc2. rewrite Ig in Sg1, Sg2. split.
  - intros [Nc Ng].
    destruct (Sc1 Nc) as [c [Ec Es]]. destruct (Sg1 Ng) as [c' [Ec' Es']].
    rewrite Ec. simpl. rewrite Es. simpl. rewrite Ec'. simpl. rewrite Es'. simpl.
    eexists. split; reflexivity.
  - intros Hn.
    destruct (unique (map (fun lr => Company (Pending.source (snd lr))) uc)) eqn:Eu.
    + apply unique_NoDup in Eu. destruct (Sc1 Eu) as [c [Ec Es]].
      rewrite Ec. simpl. rewrite Es. simpl. rewrite Sg2; [reflexivity | ].
      intros Ng. apply Hn. split; assumption.
    + rewrite Sc2; [reflexivity | ].
      intros Nc. apply unique_NoDup in Nc. congruence.
Qed.

(** X8. On a table with rows, [validate_matching] returns exactly when no
    name occurs twice among the unmatched companies nor among the
    unmatched government entities; what it returns is the table of the
    two left merges, and otherwise it raises the [ValueError] of a
    reindexing on duplicate labels. *)
Theorem validate_matching_returns_iff_names_distinct df cm gm uc ug g :
  df <> [] ->
  (forall lr, In lr uc -> is_str (Company (Pending.source (snd lr))) = true) ->
  (forall lr, In lr ug -> is_str (Government_entity (Pending.source (snd lr))) = true) ->
  (NoDup (map (fun lr => Company (Pending.source (snd lr))) uc)
   /\ NoDup (map (fun lr => Government_entity (Pending.source (snd lr))) ug) ->
   exists v, validate_matching df cm gm uc ug g = Ok v
             /\ resolved v = merge_step df cm gm)
  /\ (~ (NoDup (map (fun lr => Company (Pending.source (snd lr))) uc)
         /\ NoDup (map (fun lr => Government_entity (Pending.source (snd lr))) ug)) ->
      validate_matching df cm gm uc ug g = Raise ValueError).
Proof. exact (@validate_matching_cases df cm gm uc ug g). Qed.

(** ** The stages of a run *)

Lemma main_stages uploaded remote s :
  main uploaded remote = Ok s ->
  exists pc pg uc ug,
    get_potential_matches
      (column Company
         (not_isin Company (df_normalized s)
                   (map (fun m => Company (fst m)) (rows (company_matches s)))))
      (column Remote.company_name (unique_companies s)) = Ok pc
    /\ get_potential_matches
         (column Government_entity
            (not_isin Government_entity (df_normalized s)
                      (map (fun m => Government_entity (fst m)) (rows (gov_matches s)))))
         (column Remote.government_entity (unique_governments s)) = Ok pg
    /\ display_unmatched
         (pending (not_isin Company (df_normalized s)
                            (map (fun m => Company (fst m)) (rows (company_matches s))))
                  pc)
         (unique_companies s) CompanyT = Ok uc
    /\ display_unmatched
         (pending (not_isin Government_entity (df_normalized s)
                            (map (fun m => Government_entity (fst m))
                                 (rows (gov_matches s))))
                  pg)
         (unique_governments s) GovernmentT = Ok ug
    /\ (if button
        then exists v,
            validate_matching (df_normalized s) (company_matches s) (gov_matches s)
                              uc ug 0 = Ok v
            /\ output s = Some (resolved v)
            /\ unmatched_companies s = assigned_companies v
            /\ unmatched_governments s = assigned_governments v
        else output s = None /\ unmatched_companies s = uc
             /\ unmatched_governments s = ug).
Proof.
  unfold main.
  destruct (range_index uploaded) as [ | first df0] eqn:Ed; simpl; [discriminate | ].
  destruct (load_remote_dataset (range_index remote) (Country (snd first)))
    as [loaded | e] eqn:El; simpl; [ | discriminate].
  destruct (preprocess_dataset (first :: df0)) as [df | e] eqn:Ep; simpl; [ | discriminate].
  destruct (apply_column Remote.company_name set_company_name (fst loaded))
    as [ucs | e] eqn:Ec; simpl; [ | discriminate].
  destruct (apply_column Remote.government_entity set_government_entity (snd loaded))
    as [ugs | e] eqn:Eg; simpl; [ | discriminate].
  destruct (get_potential_matches (column Company _) (column Remote.company_name ucs))
    as [pc | e] eqn:Epc; simpl; [ | discriminate].
  destruct (get_potential_matches (column Government_entity _)
                                  (column Remote.government_entity ugs))
    as [pg | e] eqn:Epg; simpl; [ | discriminate].
  destruct (display_unmatched (pending _ pc) ucs CompanyT) as [uc | e] eqn:Edc;
    simpl; [ | discriminate].
  destruct (display_unmatched (pending _ pg) ugs GovernmentT) as [ug | e] eqn:Edg;
    simpl; [ | discriminate].
  destruct button.
  - destruct (validate_matching df _ _ uc ug 0) as [v | e] eqn:Ev; simpl; [ | discriminate].
    intros H. inversion H. subst s. simpl.
    exists pc, pg, uc, ug.
    repeat (split; [assumption | ]).
    exists v. repeat split; auto.
  - intros H. inversion H. subst s. simpl.
    exists pc, pg, uc, ug.
    repeat (split; [assumption | ]).
    repeat split; auto.
Qed.

Lemma map_pair_combine {A B C} (f : A -> B) (g : A -> C) (l : list A) :
  map (fun a => (f a, g a)) l = combine (map f l) (map g l).
Proof. induction l as [ | a l IH]; simpl; [ | rewrite IH]; reflexivity. Qed.

Lemma pending_rows (unmatched : frame record) : forall (potential : series),
  index potential = index unmatched ->
  map (fun lr => (fst lr, Pending.source (snd lr))) (pending unmatched potential)
  = unmatched.
Proof.
  unfold pending, index.
  induction unmatched as [ | [l r] u IH]; intros [ | [l' v] p] H;
    simpl in *; try reflexivity; try discriminate.
  injection H as H1 H2. f_equal. apply IH. exact H2.
Qed.

Lemma mem_matched_keys {R} (kl : record -> cell) (kr : R -> cell)
      (df : frame record) (registry : frame R) r :
  In r (rows df) ->
  mem (kl r) (map (fun m => kl (fst m)) (rows (merge_inner kl kr df registry)))
  = existsb (fun e => cell_eqb (kl r) (kr e)) (rows registry).
Proof.
  intros Hr.
  destruct (existsb (fun e => cell_eqb (kl r) (kr e)) (rows registry)) eqn:E.
  - apply existsb_exists in E. destruct E as [e [He Hk]]. apply cell_eqb_eq in Hk.
    apply mem_In, in_map_iff. exists (r, e). split; [reflexivity | ].
    apply merge_inner_rows. auto.
  - destruct (mem (kl r) (map (fun m => kl (fst m))
                              (rows (merge_inner kl kr df registry)))) eqn:M;
      [ | reflexivity].
    apply mem_In, in_map_iff in M. destruct M as [[r' e] [Ek Hin]]. simpl in Ek.
    apply merge_inner_rows in Hin. destruct Hin as [_ [He Hk]].
    assert (Ht : existsb (fun e => cell_eqb (kl r) (kr e)) (rows registry) = true).
    { apply existsb_exists. exists e. split; [exact He | ].
      apply cell_eqb_eq. congruence. }
    congruence.
Qed.

(** X10. The exact matcher splits the upload: the frame of unmatched
    companies holds, with their labels and in their order, the uploaded
    rows whose normalised company name is no registry entity's, through
    the operator step and the assignment; likewise for the government
    entities. *)
Theorem unmatched_rows_are_the_rows_without_match uploaded remote s :
  main uploaded remote = Ok s ->
  map (fun lr => (fst lr, Pending.source (snd lr))) (unmatched_companies s)
  = filter (fun lr => negb (existsb (fun e => cell_eqb (Company (snd lr))
                                                       (Remote.company_name e))
                                    (rows (unique_companies s))))
           (df_normalized s)
  /\ map (fun lr => (fst lr, Pending.source (snd lr))) (unmatched_governments s)
     = filter (fun lr => negb (existsb (fun e => cell_eqb (Government_entity (snd lr))
                                                          (Remote.government_entity e))
                                       (rows (unique_governments s))))
              (df_normalized s).
Proof.
  intros H.
  destruct (main_frames _ _ H) as [Hne [_ Hstr]].
  destruct (main_inv _ _ H)
    as (first & loaded & _ & _ & _ & _ & _ & _ & _ & _ & _ & Ecm & Egm & _).
  destruct (main_stages _ _ H) as (pc & pg & uc & ug & Epc & Epg & Edc & Edg & Hb).
  assert (Huc : map (fun lr => (fst lr, Pending.source (snd lr))) uc
                = not_isin Company (df_normalized s)
                           (map (fun m => Company (fst m)) (rows (company_matches s)))).
  { destruct (display_loop_sources _ _ _ _ Edc) as [Hs Hi].
    rewrite map_pair_combine. fold (index uc). rewrite Hs, Hi.
    unfold index. rewrite <- map_pair_combine.
    apply pending_rows. apply get_potential_matches_index in Epc.
    rewrite index_column in Epc. exact Epc. }
  assert (Hug : map (fun lr => (fst lr, Pending.source (snd lr))) ug
                = not_isin Government_entity (df_normalized s)
                           (map (fun m => Government_entity (fst m))
                                (rows (gov_matches s)))).
  { destruct (display_loop_sources _ _ _ _ Edg) as [Hs Hi].
    rewrite map_pair_combine. fold (index ug). rewrite Hs, Hi.
    unfold index. rewrite <- map_pair_combine.
    apply pending_rows. apply get_potential_matches_index in Epg.
    rewrite index_column in Epg. exact Epg. }
  assert (Fc : not_isin Company (df_normalized s)
                        (map (fun m => Company (fst m)) (rows (company_matches s)))
               = filter (fun lr => negb (existsb (fun e => cell_eqb (Company (snd lr))
                                                                    (Remote.company_name e))
                                                 (rows (unique_companies s))))
                        (df_normalized s)).
  { unfold not_isin. apply filter_ext_in. intros lr Hlr. rewrite Ecm.
    rewrite mem_matched_keys; [reflexivity | apply (in_map snd _ _ Hlr)]. }
  assert (Fg : not_isin Government_entity (df_normalized s)
                        (map (fun m => Government_entity (fst m)) (rows (gov_matches s)))
               = filter (fun lr => negb (existsb
                                           (fun e => cell_eqb (Government_entity (snd lr))
                                                              (Remote.government_entity e))
                                           (rows (unique_governments s))))
                        (df_normalized s)).
  { unfold not_isin. apply filter_ext_in. intros lr Hlr. rewrite Egm.
    rewrite mem_matched_keys; [reflexivity | apply (in_map snd _ _ Hlr)]. }
  rewrite <- Fc, <- Fg, <- Huc, <- Hug.
  destruct button.
  - destruct Hb as [v [Hv [_ [-> ->]]]].
    assert (Hc : forall lr, In lr uc -> is_str (Company (Pending.source (snd lr))) = true).
    { intros lr Hlr.
      destruct (@displayed_sources _ pc (unique_companies s) CompanyT uc Company
                  (df_normalized s) _ eq_refl Edc lr Hlr) as [Hin _].
      apply Hstr, Hin. }
    assert (Hg : forall lr, In lr ug ->
                            is_str (Government_entity (Pending.source (snd lr))) = true).
    { intros lr Hlr.
      destruct (@displayed_sources _ pg (unique_governments s) GovernmentT ug
                  Government_entity (df_normalized s) _ eq_refl Edg lr Hlr) as [Hin _].
      apply Hstr, Hin. }
    destruct (@validate_matching_Ok _ _ _ _ _ _ _ Hne Hc Hg Hv) as [_ [-> ->]].
    unfold assign_ids.
    rewrite !(map_pair_combine fst (fun lr => Pending.source (snd lr))).
    fold (index (fst (assign_loop uc uc 0))).
    fold (index (fst (assign_loop ug ug (snd (assign_loop uc uc 0))))).
    fold (index uc). fold (index ug).
    rewrite !assign_loop_sources, !assign_loop_index. auto.
  - destruct Hb as [_ [-> ->]]. auto.
Qed.

(** ** Names and rows of a completed run *)

(** X12. A run that returns a table had no two unmatched rows of one company
    name, and no two of one government entity name: with such rows the
    assignment at lines 62-63 raises. *)
Theorem completed_run_had_distinct_unmatched_names uploaded remote s out :
  main uploaded remote = Ok s -> output s = Some out ->
  NoDup (map (fun lr => Company (Pending.source (snd lr))) (unmatched_companies s))
  /\ NoDup (map (fun lr => Government_entity (Pending.source (snd lr)))
                (unmatched_governments s)).
Proof.
  intros H Ho.
  destruct (main_frames _ _ H) as [Hne [_ Hstr]].
  destruct (main_stages _ _ H) as (pc & pg & uc & ug & _ & _ & Edc & Edg & Hb).
  destruct button; [ | destruct Hb as [Hb _]; congruence].
  destruct Hb as [v [Hv [_ [Euc Eug]]]].
  assert (Hc : forall lr, In lr uc -> is_str (Company (Pending.source (snd lr))) = true).
  { intros lr Hlr.
    destruct (@displayed_sources _ pc (unique_companies s) CompanyT uc Company
                (df_normalized s) _ eq_refl Edc lr Hlr) as [Hin _].
    apply Hstr, Hin. }
  assert (Hg : forall lr, In lr ug ->
                          is_str (Government_entity (Pending.source (snd lr))) = true).
  { intros lr Hlr.
    destruct (@displayed_sources _ pg (unique_governments s) GovernmentT ug
                Government_entity (df_normalized s) _ eq_refl Edg lr Hlr) as [Hin _].
    apply Hstr, Hin. }
  destruct (@validate_matching_Ok _ _ _ _ _ _ _ Hne Hc Hg Hv) as [_ [Ec Eg]].
  rewrite Euc, Eug, Ec, Eg. unfold assign_ids.
  rewrite <- !(map_map (fun lr => Pending.source (snd lr))).
  rewrite !assign_loop_sources, !map_map.
  destruct (@validate_matching_cases (df_normalized s) (company_matches s)
              (gov_matches s) uc ug 0 Hne Hc Hg) as [_ Hraise].
  destruct (unique (map (fun lr => Company (Pending.source (snd lr))) uc)) eqn:Uc;
    destruct (unique (map (fun lr => Government_entity (Pending.source (snd lr))) ug))
      eqn:Ug;
    try (apply unique_NoDup in Uc; apply unique_NoDup in Ug; split; assumption);
    exfalso; rewrite Hraise in Hv; try discriminate;
    intros [Nc Ng]; apply unique_NoDup in Nc; apply unique_NoDup in Ng; congruence.
Qed.

(** X11. The exact matcher pairs a record with a reference entity exactly
    when their normalised names are equal. *)
Theorem exact_matches_are_the_pairs_of_equal_names uploaded remote s :
  main uploaded remote = Ok s ->
  (forall r e, In (r, e) (rows (company_matches s)) <->
               In r (rows (df_normalized s)) /\ In e (rows (unique_companies s))
               /\ Company r = Remote.company_name e)
  /\ (forall r e, In (r, e) (rows (gov_matches s)) <->
                  In r (rows (df_normalized s)) /\ In e (rows (unique_governments s))
                  /\ Government_entity r = Remote.government_entity e).
Proof.
  intros H.
  destruct (main_inv _ _ H)
    as (first & loaded & _ & _ & _ & _ & _ & _ & _ & _ & _ & Ecm & Egm & _).
  rewrite Ecm, Egm. split; intros r e; apply merge_inner_rows.
Qed.

Lemma flat_map_length_ge {A B} (f : A -> list B) l :
  (forall a, 1 <= List.length (f a)) -> List.length l <= List.length (flat_map f l).
Proof.
  intros H. induction l as [ | a l IH]; simpl; [lia | ].
  rewrite length_app. specialize (H a). lia.
Qed.

Lemma flat_map_length_gt {A B} (f : A -> list B) l :
  (forall a, 1 <= List.length (f a)) ->
  (exists a, In a l /\ 2 <= List.length (f a)) ->
  List.length l < List.length (flat_map f l).
Proof.
  intros H [a [Ha H2]]. induction l as [ | x l IH]; simpl; [contradiction | ].
  rewrite length_app. pose proof (flat_map_length_ge f l H) as Hl.
  destruct Ha as [-> | Ha].
  - lia.
  - specialize (IH Ha). specialize (H x). lia.
Qed.

Lemma attach_length {L} (key : L -> cell) (right : list (cell * cell)) l :
  List.length match filter (fun kv => cell_eqb (key l) (fst kv)) right with
              | [] => [(l, NaN)]
              | ms => map (fun kv => (l, snd kv)) ms
              end
  = Nat.max 1 (List.length (filter (fun kv => cell_eqb (key l) (fst kv)) right)).
Proof.
  destruct (filter (fun kv => cell_eqb (key l) (fst kv)) right) as [ | m ms];
    [reflexivity | ].
  rewrite length_map. simpl. lia.
Qed.

Lemma merge_left_length_ge {L} (key : L -> cell) left right :
  List.length left <= List.length (merge_left key left right).
Proof.
  unfold merge_left, range_index. rewrite range_from_length.
  replace (List.length left) with (List.length (rows left))
    by (unfold rows; apply length_map).
  apply flat_map_length_ge. intros l. rewrite attach_length. lia.
Qed.

Lemma merge_left_length_gt {L} (key : L -> cell) left right :
  (exists l, In l (rows left)
             /\ 2 <= List.length (filter (fun kv => cell_eqb (key l) (fst kv)) right)) ->
  List.length left < List.length (merge_left key left right).
Proof.
  intros [l [Hl H2]]. unfold merge_left, range_index. rewrite range_from_length.
  replace (List.length left) with (List.length (rows left))
    by (unfold rows; apply length_map).
  apply flat_map_length_gt.
  - intros a. rewrite attach_length. lia.
  - exists l. split; [exact Hl | ]. rewrite attach_length. lia.
Qed.

Lemma repeated_key (right : list (cell * cell)) :
  NoDup (map fst right)
  \/ exists k, In k (map fst right)
               /\ 2 <= List.length (filter (fun kv => cell_eqb k (fst kv)) right).
Proof.
  induction right as [ | [k0 v] right IH]; simpl; [left; constructor | ].
  destruct IH as [Hnd | [k [Hk H2]]].
  - destruct (in_dec cell_eq_dec k0 (map fst right)) as [Hin | Hin].
    + right. exists k0. split; [auto | ]. rewrite cell_eqb_refl. simpl.
      apply in_map_iff in Hin. destruct Hin as [[k1 v1] [E Hin]]. simpl in E. subst k1.
      assert (Hf : In (k0, v1) (filter (fun kv => cell_eqb k0 (fst kv)) right))
        by (apply filter_In; split; [exact Hin | apply cell_eqb_refl]).
      destruct (filter (fun kv => cell_eqb k0 (fst kv)) right); [contradiction | ].
      simpl. lia.
    + left. constructor; assumption.
  - right. exists k. split; [auto | ].
    destruct (cell_eqb k k0); simpl; lia.
Qed.

Lemma merge_left_covers {L} (key : L -> cell) left right l :
  In l (rows left) -> exists v, In (l, v) (rows (merge_left key left right)).
Proof.
  intros Hl. unfold merge_left. rewrite range_index_rows.
  destruct (filter (fun kv => cell_eqb (key l) (fst kv)) right) as [ | m ms] eqn:E.
  - exists NaN. apply in_flat_map. exists l. rewrite E. simpl. auto.
  - exists (snd m). apply in_flat_map. exists l. rewrite E. simpl. auto.
Qed.

(** X13. The merges never drop a record: the table returned has at least as
    many rows as the upload, and exactly as many only when no name
    occurs twice among the matched rows. *)
Theorem returned_table_has_no_fewer_rows uploaded remote s out :
  main uploaded remote = Ok s -> output s = Some out ->
  List.length uploaded <= List.length out
  /\ (List.length out = List.length uploaded ->
      NoDup (map (fun m => Company (fst m)) (rows (company_matches s)))
      /\ NoDup (map (fun m => Government_entity (fst m)) (rows (gov_matches s)))).
Proof.
  intros H Ho. rewrite (main_output _ _ H Ho).
  destruct (main_frames _ _ H) as [_ [Hlen _]]. rewrite <- Hlen.
  destruct (main_inv _ _ H)
    as (first & loaded & _ & _ & _ & _ & _ & _ & _ & _ & _ & Ecm & Egm & _).
  unfold merge_step. rewrite length_map.
  set (rc := map (fun m : record * Remote.row =>
                    (Company (fst m), Remote.eiti_id_company (snd m)))
                 (rows (company_matches s))).
  set (rg := map (fun m : record * Remote.row =>
                    (Government_entity (fst m), Remote.eiti_id_government (snd m)))
                 (rows (gov_matches s))).
  set (df1 := merge_left Company (df_normalized s) rc).
  pose proof (merge_left_length_ge Company (df_normalized s) rc) as G1.
  pose proof (merge_left_length_ge (fun x : record * cell => Government_entity (fst x))
                                   df1 rg) as G2.
  fold df1 in G1. split; [lia | ]. intros Heq.
  assert (Kc : map fst rc = map (fun m => Company (fst m)) (rows (company_matches s)))
    by (unfold rc; rewrite map_map; reflexivity).
  assert (Kg : map fst rg
               = map (fun m => Government_entity (fst m)) (rows (gov_matches s)))
    by (unfold rg; rewrite map_map; reflexivity).
  rewrite <- Kc, <- Kg. split.
  - destruct (repeated_key rc) as [Hnd | [k [Hk H2]]]; [exact Hnd | exfalso].
    rewrite Kc in Hk. apply in_map_iff in Hk. destruct Hk as [[r e] [Ek Hin]].
    simpl in Ek. rewrite Ecm in Hin. apply merge_inner_rows in Hin.
    destruct Hin as [Hr _].
    assert (Hgt : List.length (df_normalized s) < List.length df1).
    { apply merge_left_length_gt. exists r. split; [exact Hr | ]. rewrite Ek. exact H2. }
    lia.
  - destruct (repeated_key rg) as [Hnd | [k [Hk H2]]]; [exact Hnd | exfalso].
    rewrite Kg in Hk. apply in_map_iff in Hk. destruct Hk as [[r e] [Ek Hin]].
    simpl in Ek. rewrite Egm in Hin. apply merge_inner_rows in Hin.
    destruct Hin as [Hr _].
    destruct (merge_left_covers Company (df_normalized s) rc r Hr) as [v Hv].
    fold df1 in Hv.
    assert (Hgt : List.length df1
                  < List.length (merge_left (fun x : record * cell =>
                                               Government_entity (fst x)) df1 rg)).
    { apply merge_left_length_gt. exists (r, v). split; [exact Hv | ].
      simpl. rewrite Ek. exact H2. }
    lia.
Qed.

(** ** Exceptions of a run *)

Lemma mapM_raised {A B} (f : A -> result B) (P : exn -> Prop) l e :
  (forall a e', f a = Raise e' -> P e') -> mapM f l = Raise e -> P e.
Proof.
  intros Hf. induction l as [ | a l IH]; simpl; [discriminate | ].
  destruct (f a) as [b | e'] eqn:Ea; simpl.
  - destruct (mapM f l) as [bs | e'']; simpl; [discriminate | ].
    intros H. inversion H. subst. apply IH. reflexivity.
  - intros H. inversion H. subst. apply (Hf a). exact Ea.
Qed.

Lemma apply_column_raised {R} (get : R -> cell) (set : R -> cell -> R) df e :
  apply_column get set df = Raise e -> e = AttributeError.
Proof.
  unfold apply_column.
  apply (@mapM_raised _ _ _ (fun e => e = AttributeError)).
  intros [l r] e'. simpl. destruct (get r); simpl; congruence.
Qed.

Lemma preprocess_dataset_raised df e :
  preprocess_dataset df = Raise e -> e = AttributeError.
Proof.
  unfold preprocess_dataset.
  destruct (apply_column Company set_Company df) as [df1 | e'] eqn:E; simpl.
  - apply apply_column_raised.
  - intros H. inversion H. subst. apply (apply_column_raised _ _ _ E).
Qed.

Lemma load_remote_dataset_raised remote_df country e :
  load_remote_dataset remote_df country = Raise e -> e = AttributeError.
Proof.
  unfold load_remote_dataset.
  destruct (str_upper (map Remote.country (rows remote_df))) as [ups | e'] eqn:E; simpl.
  - destruct country; simpl; congruence.
  - unfold str_upper in E. destruct (map Remote.country (rows remote_df));
      [discriminate | ].
    destruct (has_str (c :: l)); [discriminate | ]. congruence.
Qed.

Lemma get_potential_matches_raised unmatched_series remote_col e :
  get_potential_matches unmatched_series remote_col = Raise e -> e = TypeError.
Proof.
  unfold get_potential_matches.
  apply (@mapM_raised _ _ _ (fun e => e = TypeError)).
  intros [l x] e'. simpl.
  destruct (extractOne x remote_col) as [[b | ] | e''] eqn:Ex; simpl; try congruence.
  intros H. inversion H. subst e''. clear H.
  unfold extractOne in Ex. destruct remote_col as [ | kc pool]; [discriminate | ].
  destruct x as [q | | z]; try congruence.
  match type of Ex with
  | context [mapM ?f ?l] => destruct (mapM f l) as [sc | e3] eqn:Em
  end; simpl in Ex; [discriminate | ].
  inversion Ex. subst e3.
  apply (@mapM_raised _ _ _ (fun e => e = TypeError) _ e') in Em; [exact Em | ].
  intros [k c] e3. simpl. destruct c; congruence.
Qed.

Lemma reindex_raised s t e : reindex s t = Raise e -> e = ValueError.
Proof.
  unfold reindex. destruct (list_eq_dec cell_eq_dec (index s) t); [discriminate | ].
  destruct (unique (index s)); congruence.
Qed.

Lemma combine_first_raised self other e :
  combine_first self other = Raise e -> e = ValueError.
Proof.
  unfold combine_first.
  destruct (reindex self _) as [this | e1] eqn:E1; simpl.
  - destruct (reindex other _) as [that | e2] eqn:E2; simpl; [discriminate | ].
    intros H. inversion H. subst. apply (reindex_raised _ _ E2).
  - intros H. inversion H. subst. apply (reindex_raised _ _ E1).
Qed.

Lemma setitem_raised {R} (nan_row : R) (set : R -> cell -> R) df value e :
  setitem nan_row set df value = Raise e -> e = ValueError.
Proof.
  unfold setitem.
  assert (H : forall df0 : frame R,
             (v <- reindex value (index df0) ;;
              Ok (map (fun p => (fst (fst p), set (snd (fst p)) (snd (snd p))))
                      (combine df0 v))) = Raise e -> e = ValueError).
  { intros df0. destruct (reindex value (index df0)) as [v | e'] eqn:E; simpl;
      [discriminate | ].
    intros H. inversion H. subst. apply (reindex_raised _ _ E). }
  destruct df as [ | a df]; [destruct value; [apply H | discriminate] | apply H].
Qed.

Lemma bind_raised {A B} (m : result A) (k : A -> result B) (P : exn -> Prop) e :
  (forall e', m = Raise e' -> P e') ->
  (forall a, m = Ok a -> k a = Raise e -> P e) ->
  bind m k = Raise e -> P e.
Proof.
  intros Hm Hk. destruct m as [a | e']; simpl.
  - apply Hk. reflexivity.
  - intros H. inversion H. subst. apply Hm. reflexivity.
Qed.

Lemma validate_matching_raised df cm gm uc ug g e :
  validate_matching df cm gm uc ug g = Raise e -> e = ValueError.
Proof.
  unfold validate_matching.
  destruct (assign_ids uc g) as [uc' g1]. destruct (assign_ids ug g1) as [ug' g2].
  apply (@bind_raised _ _ _ _ (fun e => e = ValueError));
    [intros e' H; apply (combine_first_raised _ _ H) | intros c _].
  apply (@bind_raised _ _ _ _ (fun e => e = ValueError));
    [intros e' H; apply (setitem_raised _ _ _ _ H) | intros df3 _].
  apply (@bind_raised _ _ _ _ (fun e => e = ValueError));
    [intros e' H; apply (combine_first_raised _ _ H) | intros c' _].
  apply (@bind_raised _ _ _ _ (fun e => e = ValueError));
    [intros e' H; apply (setitem_raised _ _ _ _ H) | intros df4 _].
  discriminate.
Qed.

Lemma normalised_names_strings {R} (get : R -> cell) (set : R -> cell -> R)
      (t : R -> cell) df df' :
  (forall r v, t (set r v) = v) ->
  apply_column get set df = Ok df' ->
  forall e, In e (rows df') -> is_str (t e) = true.
Proof.
  intros Hset H e He. unfold rows in He. apply in_map_iff in He.
  destruct He as [lr' [<- Hin]].
  destruct (Forall2_In_r _ (apply_column_Ok _ _ _ H) Hin) as [lr [_ [_ [n [_ E]]]]].
  rewrite E, Hset. reflexivity.
Qed.

(** X14. What a run can raise: [IndexError] exactly on an upload without
    rows (the lookup of an accepted name in the registry never misses),
    [ValueError] only from [validate_matching], so only once the button
    is pressed, and otherwise [AttributeError] or [TypeError]. *)
Theorem main_exceptions uploaded remote :
  (uploaded = [] <-> main uploaded remote = Raise IndexError)
  /\ (main uploaded remote = Raise ValueError -> button = true).
Proof.
  assert (Hgen : forall e, main uploaded remote = Raise e ->
                           (e = IndexError -> uploaded = [])
                           /\ (e = ValueError -> button = true)).
  { intros e. unfold main.
    destruct uploaded as [ | r0 up];
      [simpl; intros H; inversion H; split; [reflexivity | discriminate] | ].
    assert (Er : range_index (r0 :: up) = (Num 0, r0) :: range_from 1 up) by reflexivity.
    rewrite Er.
    set (Q := fun e : exn => (e = IndexError -> r0 :: up = [])
                             /\ (e = ValueError -> button = true)).
    change (r0 :: up = []) with (r0 :: up = @nil record); fold Q.
    assert (QA : Q AttributeError) by (split; discriminate).
    assert (QT : Q TypeError) by (split; discriminate).
    apply (@bind_raised _ _ _ _ Q); [intros e' H; discriminate H | intros country Eco].
    apply (@bind_raised _ _ _ _ Q);
      [intros e' H; apply load_remote_dataset_raised in H; subst; exact QA
      | intros loaded El].
    apply (@bind_raised _ _ _ _ Q);
      [intros e' H; apply preprocess_dataset_raised in H; subst; exact QA
      | intros df Ep].
    apply (@bind_raised _ _ _ _ Q);
      [intros e' H; apply apply_column_raised in H; subst; exact QA
      | intros ucs Ec].
    apply (@bind_raised _ _ _ _ Q);
      [intros e' H; apply apply_column_raised in H; subst; exact QA
      | intros ugs Eg].
    apply (@bind_raised _ _ _ _ Q);
      [intros e' H; apply get_potential_matches_raised in H; subst; exact QT
      | intros pc Epc].
    apply (@bind_raised _ _ _ _ Q);
      [intros e' H; apply get_potential_matches_raised in H; subst; exact QT
      | intros pg Epg].
    assert (Hdf : NoDup (index df)).
    { rewrite (preprocess_dataset_index _ Ep), <- Er. apply range_index_NoDup. }
    apply get_potential_matches_index in Epc. rewrite index_column in Epc.
    apply get_potential_matches_index in Epg. rewrite index_column in Epg.
    match goal with
    | |- context [display_unmatched (pending ?u pc) ucs CompanyT] =>
        destruct (display_loop_decisions CompanyT ucs (pending u pc) [])
          as [uc [Edc _]]
    end.
    { simpl. rewrite (pending_index _ _ Epc). apply filter_index_NoDup, Hdf. }
    { apply (normalised_names_strings Remote.company_name set_company_name
               Remote.company_name (fst loaded)); [reflexivity | exact Ec]. }
    match goal with
    | |- context [display_unmatched (pending ?u pg) ugs GovernmentT] =>
        destruct (display_loop_decisions GovernmentT ugs (pending u pg) [])
          as [ug [Edg _]]
    end.
    { simpl. rewrite (pending_index _ _ Epg). apply filter_index_NoDup, Hdf. }
    { apply (normalised_names_strings Remote.government_entity set_government_entity
               Remote.government_entity (snd loaded)); [reflexivity | exact Eg]. }
    simpl app in Edc, Edg. unfold display_unmatched.
    rewrite Edc. cbn [bind]. rewrite Edg. cbn [bind].
    destruct button; [ | discriminate].
    apply (@bind_raised _ _ _ _ Q);
      [intros e' H; apply validate_matching_raised in H; subst; split;
       [discriminate | reflexivity]
      | intros v _; discriminate]. }
  split; [split | ].
  - intros ->. reflexivity.
  - intros H. apply (proj1 (Hgen _ H)). reflexivity.
  - intros H. apply (proj2 (Hgen _ H)). reflexivity.
Qed.




End Pipeline.

(** * Runs on the sample data *)

(** C1, on the code. A record with no exact company match comes out of a
    full run with a missing [eiti_id_company], whatever the operator
    does: the identifier the operator accepted or the assigner generated
    stays in [unmatched_companies], which [combine_first] reads by
    company name while the table is labelled by position. *)
Theorem unmatched_record_left_without_identifier
        (table unicode_upper : N -> pystr) (score : pystr -> pystr -> nat)
        (selectbox : entity_type -> label -> list cell -> nat)
        (uuid4 : nat -> pystr) :
  exists s,
    main table unicode_upper score selectbox true uuid4 [sample_zeta] [sample_a1] = Ok s
    /\ option_map (map (fun lr => (Resolved.eiti_id_company (snd lr),
                                   Resolved.eiti_id_government (snd lr))))
                  (output s)
       = Some [(NaN, Str (py "G1"))]
    /\ (map (fun lr => Pending.EITI_ID (snd lr)) (unmatched_companies s)
        = [Str (uuid4 0)]
        \/ map (fun lr => Pending.EITI_ID (snd lr)) (unmatched_companies s)
           = [Str (py "A1")]).
Proof.
  match goal with
  | |- exists s, ?m = Ok s /\ _ =>
      let m' := eval vm_compute in m in change m with m'
  end.
  match goal with
  | |- context [selectbox ?a ?b ?c] =>
      destruct (selectbox a b c) as [ | [ | [ | k]]]
  end; eexists; (split; [reflexivity | split; [reflexivity | ]]);
    first [left; reflexivity | right; reflexivity].
Qed.

(** C5, on the code. With an empty candidate pool (the registry has no
    entity of the record's country) the run of a record without exact
    match ends in the [TypeError] of [get_potential_matches]; no
    identifier is generated. *)
Theorem empty_pool_run_raises
        (table unicode_upper : N -> pystr) (score : pystr -> pystr -> nat)
        (selectbox : entity_type -> label -> list cell -> nat) (button : bool)
        (uuid4 : nat -> pystr) :
  main table unicode_upper score selectbox button uuid4 [sample_zeta] [sample_mali]
  = Raise TypeError.
Proof. reflexivity. Qed.

Lemma sample_table_ascii c : forallb is_ascii (sample_table c) = true.
Proof. unfold sample_table. destruct (c =? 233)%N; reflexivity. Qed.

Lemma sample_uuid4_injective m n : sample_uuid4 m = sample_uuid4 n -> m = n.
Proof.
  unfold sample_uuid4. intros H. apply app_inv_head in H.
  inversion H. apply Nnat.Nat2N.inj. assumption.
Qed.

Lemma sample_pending_NoDup : NoDup (index sample_pending).
Proof.
  simpl. repeat constructor; simpl; intuition discriminate.
Qed.

(** C3 on the sample table. *)
Lemma preprocess_text_idempotent_insensitive_witness :
  preprocess_text sample_table sample_upper (Str Societe_accented)
  = preprocess_text sample_table sample_upper (Str (py "SOCIETE")).
Proof.
  apply (@preprocess_text_idempotent_insensitive sample_table sample_upper).
  - exact sample_table_ascii.
  - reflexivity.
Defined.

(** C10 on an upload whose second row has no company name. *)
Lemma preprocess_dataset_raises_on_missing_witness :
  preprocess_dataset sample_table sample_upper
                     (range_index [sample_acme; sample_blank; sample_zeta])
  = Raise AttributeError.
Proof.
  apply (@preprocess_dataset_raises_on_missing sample_table sample_upper).
  exists (Num 1, sample_blank). split.
  - simpl. auto.
  - left. reflexivity.
Defined.

(** C6 on a frame with one accepted and two open rows. *)
Lemma assign_ids_never_overwrites_witness :
  NoDup (index sample_pending)
  /\ Forall2 (fun before after =>
                fst after = fst before /\
                (Pending.EITI_ID (snd before) <> Str [] -> snd after = snd before) /\
                (Pending.EITI_ID (snd before) = Str [] ->
                 exists n, 0 <= n < snd (assign_ids sample_uuid4 sample_pending 0)
                           /\ snd after
                              = set_EITI_ID (Str (sample_uuid4 n)) (snd before)))
             sample_pending (fst (assign_ids sample_uuid4 sample_pending 0)).
Proof.
  split.
  - exact sample_pending_NoDup.
  - apply (@assign_ids_never_overwrites sample_uuid4 sample_pending 0).
    exact sample_pending_NoDup.
Defined.

(** C8 on the same frame, for both loops. *)
Lemma minted_identifiers_distinct_witness :
  NoDup (minted sample_pending (fst (assign_ids sample_uuid4 sample_pending 0))
         ++ minted sample_pending
              (fst (assign_ids sample_uuid4 sample_pending
                               (snd (assign_ids sample_uuid4 sample_pending 0))))).
Proof.
  apply (@minted_identifiers_distinct sample_uuid4 sample_pending sample_pending 0).
  - exact sample_uuid4_injective.
  - exact sample_pending_NoDup.
  - exact sample_pending_NoDup.
Defined.





(** C7, as the code has it, on the registry with two entities of one name. *)
Lemma registry_names_normalised_rest_kept_witness :
  exists s first loaded,
    main sample_table sample_upper sample_score no_click true sample_uuid4 [sample_acme] [sample_a1; sample_a2] = Ok s
    /\ hd_error (range_index [sample_acme]) = Some first
    /\ load_remote_dataset sample_upper (range_index [sample_a1; sample_a2])
                           (Country (snd first)) = Ok loaded
    /\ Forall2 (fun e e' =>
                  fst e' = fst e
                  /\ preprocess_text sample_table sample_upper
                                     (Remote.company_name (snd e))
                     = Ok (Remote.company_name (snd e'))
                  /\ snd e' = set_company_name (snd e) (Remote.company_name (snd e')))
               (fst loaded) (unique_companies s).
Proof.
  destruct (@registry_names_normalised_rest_kept sample_table sample_upper sample_score
              no_click true sample_uuid4 [sample_acme] [sample_a1; sample_a2]
              (match main sample_table sample_upper sample_score no_click true sample_uuid4 [sample_acme] [sample_a1; sample_a2] with
               | Ok s => s
               | Raise _ =>
                   {| df_normalized := []; unique_companies := [];
                      unique_governments := []; company_matches := [];
                      gov_matches := []; unmatched_companies := [];
                      unmatched_governments := []; output := None |}
               end) eq_refl) as [first [loaded [H1 [H2 [H3 _]]]]].
  eexists. exists first, loaded.
  split; [vm_compute; reflexivity | ].
  split; [exact H1 | ]. split; [exact H2 | exact H3].
Defined.


(** C7, as stated, fails on a registry that holds a name in lower case:
    the run replaces it by its normalised form. *)
Lemma registry_written_counterexample :
  exists s loaded,
    main sample_table sample_upper sample_score no_click true sample_uuid4 [sample_acme] [sample_a2] = Ok s
    /\ load_remote_dataset sample_upper (range_index [sample_a2]) (Country sample_acme)
       = Ok loaded
    /\ map (fun e => Remote.company_name (snd e)) (fst loaded) = [Str (py "Acme")]
    /\ map (fun e => Remote.company_name (snd e)) (unique_companies s)
       = [Str (py "ACME")]
    /\ unique_companies s <> fst loaded.
Proof.
  eexists. eexists. split; [vm_compute; reflexivity | ].
  split; [vm_compute; reflexivity | ].
  split; [reflexivity | ]. split; [reflexivity | ].
  intros H. vm_compute in H. discriminate H.
Qed.

(** * Across runs *)

(** X16. The table a run returns is the same whatever the scorer suggests,
    the operator clicks and the random source draws: it is made of the
    upload and the registry alone. *)
Theorem returned_table_ignores_operator
        (table unicode_upper : N -> pystr)
        (score1 score2 : pystr -> pystr -> nat)
        (select1 select2 : entity_type -> label -> list cell -> nat)
        (uuid1 uuid2 : nat -> pystr) uploaded remote s1 s2 :
  main table unicode_upper score1 select1 true uuid1 uploaded remote = Ok s1 ->
  main table unicode_upper score2 select2 true uuid2 uploaded remote = Ok s2 ->
  output s1 = output s2 /\ output s1 <> None.
Proof.
  intros H1 H2.
  destruct (main_inv _ _ _ _ _ _ _ _ H1)
    as (f1 & l1 & pc1 & pg1 & uc1 & ug1 & Hh1 & Hl1 & Hp1 & Hc1 & Hg1 & Ecm1 & Egm1
        & _ & _ & [v1 [_ [Ho1 _]]]).
  destruct (main_inv _ _ _ _ _ _ _ _ H2)
    as (f2 & l2 & pc2 & pg2 & uc2 & ug2 & Hh2 & Hl2 & Hp2 & Hc2 & Hg2 & Ecm2 & Egm2
        & _ & _ & [v2 [_ [Ho2 _]]]).
  assert (Ef : f2 = f1) by congruence. subst f2.
  assert (El : l2 = l1) by congruence. subst l2.
  assert (Ed : df_normalized s2 = df_normalized s1) by congruence.
  assert (Ec : unique_companies s2 = unique_companies s1) by congruence.
  assert (Eg : unique_governments s2 = unique_governments s1) by congruence.
  split; [ | congruence].
  rewrite Ho1, Ho2. f_equal.
  rewrite (main_output _ _ _ _ _ _ _ _ H1 Ho1), (main_output _ _ _ _ _ _ _ _ H2 Ho2).
  rewrite Ecm1, Egm1, Ecm2, Egm2, Ed, Ec, Eg. reflexivity.
Qed.

Lemma extractOne_either (score1 score2 : pystr -> pystr -> nat) query choices b :
  extractOne score1 query choices = Ok (Some b) ->
  exists b', extractOne score2 query choices = Ok (Some b').
Proof.
  unfold extractOne. destruct choices as [ | kc pool]; [discriminate | ].
  destruct query as [q | | z]; try discriminate.
  match goal with
  | |- context [mapM ?f (kc :: pool)] =>
      destruct (mapM f (kc :: pool)) as [sc | e] eqn:Em
  end; unfold bind at 1; [ | discriminate].
  intros _.
  assert (Hstr : forall x, In x (kc :: pool) -> is_str (snd x) = true).
  { intros x Hx. apply mapM_Ok in Em.
    destruct (Forall2_In_l _ Em Hx) as [y [_ Hy]].
    destruct (snd x); [reflexivity | discriminate | discriminate]. }
  rewrite (mapM_map _ (fun kc : label * cell =>
                         (snd kc, score2 q match snd kc with Str c => c | _ => [] end,
                          fst kc))).
  - unfold bind. simpl map. simpl max_by_score. eexists. reflexivity.
  - intros [k c] Hx. specialize (Hstr _ Hx). simpl in *.
    destruct c; [reflexivity | discriminate | discriminate].
Qed.

Lemma get_potential_matches_either (score1 score2 : pystr -> pystr -> nat)
      unmatched_series remote_col p1 :
  get_potential_matches score1 unmatched_series remote_col = Ok p1 ->
  exists p2, get_potential_matches score2 unmatched_series remote_col = Ok p2.
Proof.
  unfold get_potential_matches. revert p1.
  induction unmatched_series as [ | [l x] u IH]; intros p1; simpl.
  - intros _. eexists. reflexivity.
  - destruct (extractOne score1 x remote_col) as [[b | ] | e] eqn:Ex; simpl;
      try discriminate.
    match goal with
    | |- context [mapM ?f u] => destruct (mapM f u) as [p | e] eqn:Em
    end; simpl; [ | discriminate].
    intros _. destruct (extractOne_either score1 score2 _ _ Ex) as [b' Ex'].
    destruct (IH p eq_refl) as [p2 Ep2].
    rewrite Ex'. simpl. rewrite Ep2. simpl. eexists. reflexivity.
Qed.

Lemma get_potential_matches_same_outcome (score1 score2 : pystr -> pystr -> nat)
      unmatched_series remote_col :
  match get_potential_matches score1 unmatched_series remote_col,
        get_potential_matches score2 unmatched_series remote_col with
  | Ok p1, Ok p2 => index p1 = index unmatched_series
                    /\ index p2 = index unmatched_series
  | Raise e1, Raise e2 => e1 = e2
  | _, _ => False
  end.
Proof.
  destruct (get_potential_matches score1 unmatched_series remote_col) as [p1 | e1] eqn:E1;
    destruct (get_potential_matches score2 unmatched_series remote_col) as [p2 | e2] eqn:E2.
  - split; eapply get_potential_matches_index; eassumption.
  - destruct (get_potential_matches_either score1 score2 _ _ E1). congruence.
  - destruct (get_potential_matches_either score2 score1 _ _ E2). congruence.
  - apply get_potential_matches_raised in E1. apply get_potential_matches_raised in E2.
    congruence.
Qed.

Lemma decided_alike (selectbox : entity_type -> label -> list cell -> nat) t remote_df
      (f1 f2 : frame Pending.row) :
  Forall2 (fun b1 b2 : label * Pending.row =>
             fst b1 = fst b2 /\ Pending.source (snd b1) = Pending.source (snd b2)
             /\ Pending.EITI_ID (snd b1) = Pending.EITI_ID (snd b2)) f1 f2 ->
  NoDup (index f1) -> NoDup (index f2) ->
  (forall e, In e (rows remote_df) -> is_str (remote_column t e) = true) ->
  display_unmatched selectbox f1 remote_df t = display_unmatched selectbox f2 remote_df t.
Proof.
  intros F N1 N2 Hstr. unfold display_unmatched.
  destruct (display_loop_decisions selectbox t remote_df f1 [] N1 Hstr) as [o1 [E1 D1]].
  destruct (display_loop_decisions selectbox t remote_df f2 [] N2 Hstr) as [o2 [E2 D2]].
  simpl in E1, E2. rewrite E1, E2. f_equal.
  clear E1 E2 N1 N2. revert o1 o2 D1 D2.
  induction F as [ | [l1 b1] [l2 b2] f1 f2 [Hl [Hs He]] F IH]; intros o1 o2 D1 D2.
  - inversion D1. inversion D2. reflexivity.
  - inversion D1 as [ | x [k1 a1] y o1' [A1 [A2 [A3 [A4 A5]]]] D1']; subst.
    inversion D2 as [ | x [k2 a2] y o2' [B1 [B2 [B3 [B4 B5]]]] D2']; subst.
    simpl in *. subst. f_equal; [ | apply IH; assumption].
    f_equal.
    assert (Epm : Pending.Potential_Match a1 = Pending.Potential_Match a2)
      by congruence.
    assert (Eid : Pending.EITI_ID a1 = Pending.EITI_ID a2).
    { destruct (cell_eq_dec (Pending.Potential_Match a1) No_potential_match) as [E | E].
      - rewrite (A4 E), B4; congruence.
      - destruct (A5 E) as [e1 [r1 [Ef1 ->]]].
        destruct B5 as [e2 [r2 [Ef2 ->]]]; [congruence | ].
        rewrite Epm in Ef1. rewrite Ef1 in Ef2. inversion Ef2. reflexivity. }
    destruct a1, a2. simpl in *. congruence.
Qed.

Lemma pending_alike (unmatched : frame record) : forall p1 p2 : series,
  index p1 = index unmatched -> index p2 = index unmatched ->
  Forall2 (fun b1 b2 : label * Pending.row =>
             fst b1 = fst b2 /\ Pending.source (snd b1) = Pending.source (snd b2)
             /\ Pending.EITI_ID (snd b1) = Pending.EITI_ID (snd b2))
          (pending unmatched p1) (pending unmatched p2).
Proof.
  unfold pending, index.
  induction unmatched as [ | [l r] u IH]; intros [ | [l1 v1] p1] [ | [l2 v2] p2] H1 H2;
    simpl in *; try discriminate; constructor.
  - simpl. auto.
  - injection H1 as _ H1. injection H2 as _ H2. apply IH; assumption.
Qed.

(** X17. A run does not depend on the fuzzy scorer: the suggestion of
    [get_potential_matches] is replaced by the value of the selectbox,
    which is not given the suggestion, so two scorers give the same
    session or the same exception. *)
Theorem run_ignores_the_scorer
        (table unicode_upper : N -> pystr)
        (score1 score2 : pystr -> pystr -> nat)
        (selectbox : entity_type -> label -> list cell -> nat) (button : bool)
        (uuid4 : nat -> pystr) uploaded remote :
  main table unicode_upper score1 selectbox button uuid4 uploaded remote
  = main table unicode_upper score2 selectbox button uuid4 uploaded remote.
Proof.
  unfold main.
  destruct (range_index uploaded) as [ | first df0] eqn:Ed; [reflexivity | ].
  cbn [bind].
  destruct (load_remote_dataset unicode_upper (range_index remote) (Country (snd first)))
    as [loaded | e]; cbn [bind]; [ | reflexivity].
  destruct (preprocess_dataset table unicode_upper (first :: df0)) as [df | e] eqn:Ep;
    cbn [bind]; [ | reflexivity].
  destruct (apply_column table unicode_upper Remote.company_name set_company_name
                         (fst loaded)) as [ucs | e] eqn:Ec; cbn [bind]; [ | reflexivity].
  destruct (apply_column table unicode_upper Remote.government_entity
                         set_government_entity (snd loaded)) as [ugs | e] eqn:Eg;
    cbn [bind]; [ | reflexivity].
  set (U := not_isin Company df
              (map (fun m : record * Remote.row => Company (fst m))
                   (rows (merge_inner Company Remote.company_name df ucs)))).
  set (V := not_isin Government_entity df
              (map (fun m : record * Remote.row => Government_entity (fst m))
                   (rows (merge_inner Government_entity Remote.government_entity
                                      df ugs)))).
  assert (Hdf : NoDup (index df)).
  { rewrite (preprocess_dataset_index _ _ _ Ep), <- Ed. apply range_index_NoDup. }
  pose proof (get_potential_matches_same_outcome score1 score2 (column Company U)
                (column Remote.company_name ucs)) as Sc.
  destruct (get_potential_matches score1 (column Company U)
                                  (column Remote.company_name ucs)) as [pc1 | e1];
    destruct (get_potential_matches score2 (column Company U)
                                    (column Remote.company_name ucs)) as [pc2 | e2];
    try contradiction; cbn [bind]; [ | subst; reflexivity].
  destruct Sc as [I1 I2]. rewrite index_column in I1, I2.
  pose proof (get_potential_matches_same_outcome score1 score2
                (column Government_entity V)
                (column Remote.government_entity ugs)) as Sg.
  destruct (get_potential_matches score1 (column Government_entity V)
                                  (column Remote.government_entity ugs)) as [pg1 | e1];
    destruct (get_potential_matches score2 (column Government_entity V)
                                    (column Remote.government_entity ugs)) as [pg2 | e2];
    try contradiction; cbn [bind]; [ | subst; reflexivity].
  destruct Sg as [J1 J2]. rewrite index_column in J1, J2.
  assert (Dc : display_unmatched selectbox (pending U pc1) ucs CompanyT
               = display_unmatched selectbox (pending U pc2) ucs CompanyT).
  { apply decided_alike.
    - apply pending_alike; assumption.
    - rewrite (pending_index _ _ I1). apply filter_index_NoDup, Hdf.
    - rewrite (pending_index _ _ I2). apply filter_index_NoDup, Hdf.
    - apply (normalised_names_strings table unicode_upper Remote.company_name
               set_company_name Remote.company_name (fst loaded));
        [reflexivity | exact Ec]. }
  assert (Dg : display_unmatched selectbox (pending V pg1) ugs GovernmentT
               = display_unmatched selectbox (pending V pg2) ugs GovernmentT).
  { apply decided_alike.
    - apply pending_alike; assumption.
    - rewrite (pending_index _ _ J1). apply filter_index_NoDup, Hdf.
    - rewrite (pending_index _ _ J2). apply filter_index_NoDup, Hdf.
    - apply (normalised_names_strings table unicode_upper Remote.government_entity
               set_government_entity Remote.government_entity (snd loaded));
        [reflexivity | exact Eg]. }
  rewrite Dc, Dg. reflexivity.
Qed.

(** * Further runs on the sample data *)

(** X1 on the sample data. *)
Lemma load_remote_dataset_one_row_per_identifier_witness :
  exists uc ug,
    load_remote_dataset sample_upper (range_index [sample_a1; sample_a2; sample_mali])
                        (Str (py "ghana")) = Ok (uc, ug)
    /\ NoDup (map (fun lr => Remote.eiti_id_company (snd lr)) uc)
    /\ NoDup (map (fun lr => Remote.eiti_id_government (snd lr)) ug).
Proof.
  eexists. eexists. split; [vm_compute; reflexivity | ].
  destruct (@load_remote_dataset_one_row_per_identifier sample_upper
              (range_index [sample_a1; sample_a2; sample_mali]) (Str (py "ghana"))
              _ _ eq_refl) as [H1 [H2 _]].
  split; [exact H1 | exact H2].
Defined.

(** X2 on the sample data. *)
Lemma normal_form_upper_case_ascii_witness :
  preprocess_text sample_table sample_upper (Str Societe_accented)
  = Ok (Str (py "SOCIETE"))
  /\ (69 < 128)%N /\ ~ (97 <= 69 <= 122)%N.
Proof.
  split; [reflexivity | ].
  apply (@normal_form_upper_case_ascii sample_table sample_upper Societe_accented
           (py "SOCIETE") sample_table_ascii eq_refl 69%N).
  simpl. do 4 right. left. reflexivity.
Defined.

(** X3 on the sample data. *)
Lemma preprocess_dataset_idempotent_witness :
  exists df',
    preprocess_dataset sample_table sample_upper (range_index [sample_acme; sample_zeta])
    = Ok df'
    /\ preprocess_dataset sample_table sample_upper df' = Ok df'.
Proof.
  eexists. split; [vm_compute; reflexivity | ].
  apply (@preprocess_dataset_idempotent sample_table sample_upper
           (range_index [sample_acme; sample_zeta])).
  - exact sample_table_ascii.
  - reflexivity.
Defined.

(** X4 on the sample data. *)
Lemma get_potential_matches_first_best_witness :
  exists potential,
    get_potential_matches sample_flat_score
      [(Num 0, Str (py "ZETA MINING"))]
      [(Num 0, Str (py "ACME")); (Num 1, Str (py "ZETA"))] = Ok potential.
Proof.
  destruct (@get_potential_matches_first_best sample_flat_score
              [(Num 0, Str (py "ZETA MINING"))]
              [(Num 0, Str (py "ACME")); (Num 1, Str (py "ZETA"))])
    as [p [E _]].
  - discriminate.
  - intros kc [<- | [<- | []]]; reflexivity.
  - intros lx [<- | []]; reflexivity.
  - exists p. exact E.
Defined.

(** X5 on the sample data. *)
Lemma display_unmatched_decisions_witness :
  exists out,
    display_unmatched sample_click sample_pending (range_index [sample_a1; sample_a2])
                      CompanyT = Ok out.
Proof.
  destruct (@display_unmatched_decisions sample_click sample_pending
              (range_index [sample_a1; sample_a2]) CompanyT) as [out [E _]].
  - exact sample_pending_NoDup.
  - intros e [<- | [<- | []]]; reflexivity.
  - exists out. exact E.
Defined.

(** X6 on the sample data. *)
Lemma sentinel_is_no_registry_name_witness :
  exists s,
    main sample_table sample_upper sample_score no_click true sample_uuid4
         [sample_acme] [sample_a1; sample_a2] = Ok s
    /\ forall e, In e (unique_companies s) ->
                 Remote.company_name (snd e) <> No_potential_match.
Proof.
  eexists. split; [vm_compute; reflexivity | ].
  apply (@sentinel_is_no_registry_name sample_table sample_upper sample_score no_click
           true sample_uuid4 [sample_acme] [sample_a1; sample_a2]).
  - exact sample_table_ascii.
  - reflexivity.
Defined.

(** X7 on the sample data. *)
Lemma assign_ids_fills_every_open_row_witness :
  snd (assign_ids sample_uuid4 sample_pending 0) = 2
  /\ forall lr, In lr (fst (assign_ids sample_uuid4 sample_pending 0)) ->
                Pending.EITI_ID (snd lr) <> Str [].
Proof.
  apply (@assign_ids_fills_every_open_row sample_uuid4 sample_pending 0).
  - exact sample_pending_NoDup.
  - intros n. unfold sample_uuid4. discriminate.
Defined.

(** X8 on the sample data. *)
Lemma validate_matching_returns_iff_names_distinct_witness :
  validate_matching sample_uuid4 (range_index [sample_zeta]) [] [] sample_pending [] 0
  = Raise ValueError.
Proof.
  apply (@validate_matching_returns_iff_names_distinct sample_uuid4
           (range_index [sample_zeta]) [] [] sample_pending [] 0).
  - discriminate.
  - intros lr [<- | [<- | [<- | []]]]; reflexivity.
  - intros lr [].
  - intros [H _]. simpl in H. inversion H as [ | x l Hx Hl]. apply Hx. simpl. auto.
Defined.

(** X9 on the sample data. *)
Lemma unmatched_identifier_missing_witness :
  exists s out o,
    main sample_table sample_upper sample_score no_click true sample_uuid4
         [sample_zeta] [sample_a1] = Ok s
    /\ output s = Some out /\ In o (rows out)
    /\ Resolved.eiti_id_company o = NaN.
Proof.
  eexists. eexists. eexists. split; [vm_compute; reflexivity | ].
  split; [reflexivity | ]. split; [simpl; left; reflexivity | ].
  refine (proj1 (@unmatched_identifier_missing sample_table sample_upper sample_score
                   no_click true sample_uuid4 [sample_zeta] [sample_a1] _ _ _ _ _ _) _).
  - vm_compute. reflexivity.
  - reflexivity.
  - simpl. left. reflexivity.
  - intros e [<- | []]. vm_compute. discriminate.
Defined.

(** X10 on the sample data. *)
Lemma unmatched_rows_are_the_rows_without_match_witness :
  exists s,
    main sample_table sample_upper sample_score no_click true sample_uuid4
         [sample_acme; sample_zeta] [sample_a1] = Ok s
    /\ map (fun lr => (fst lr, Pending.source (snd lr))) (unmatched_companies s)
       = filter (fun lr => negb (existsb (fun e => cell_eqb (Company (snd lr))
                                                            (Remote.company_name e))
                                         (rows (unique_companies s))))
                (df_normalized s).
Proof.
  eexists. split; [vm_compute; reflexivity | ].
  apply (@unmatched_rows_are_the_rows_without_match sample_table sample_upper
           sample_score no_click true sample_uuid4 [sample_acme; sample_zeta]
           [sample_a1]).
  reflexivity.
Defined.

(** X11 on the sample data. *)
Lemma exact_matches_are_the_pairs_of_equal_names_witness :
  exists s,
    main sample_table sample_upper sample_score no_click true sample_uuid4
         [sample_acme; sample_zeta] [sample_a1] = Ok s
    /\ forall r e, In (r, e) (rows (company_matches s)) <->
                   In r (rows (df_normalized s)) /\ In e (rows (unique_companies s))
                   /\ Company r = Remote.company_name e.
Proof.
  eexists. split; [vm_compute; reflexivity | ].
  apply (@exact_matches_are_the_pairs_of_equal_names sample_table sample_upper
           sample_score no_click true sample_uuid4 [sample_acme; sample_zeta]
           [sample_a1]).
  reflexivity.
Defined.

(** X12 on the sample data. *)
Lemma completed_run_had_distinct_unmatched_names_witness :
  exists s,
    main sample_table sample_upper sample_score no_click true sample_uuid4
         [sample_acme; sample_zeta] [sample_a1] = Ok s
    /\ NoDup (map (fun lr => Company (Pending.source (snd lr))) (unmatched_companies s)).
Proof.
  eexists. split; [vm_compute; reflexivity | ].
  eapply (@completed_run_had_distinct_unmatched_names sample_table sample_upper
            sample_score no_click true sample_uuid4 [sample_acme; sample_zeta]
            [sample_a1]); reflexivity.
Defined.

(** X13 on the sample data. *)
Lemma returned_table_has_no_fewer_rows_witness :
  exists s out,
    main sample_table sample_upper sample_score no_click true sample_uuid4
         [sample_acme; sample_zeta] [sample_a1] = Ok s
    /\ output s = Some out
    /\ List.length [sample_acme; sample_zeta] <= List.length out.
Proof.
  eexists. eexists. split; [vm_compute; reflexivity | ].
  split; [reflexivity | ].
  refine (proj1 (@returned_table_has_no_fewer_rows sample_table sample_upper sample_score
                   no_click true sample_uuid4 [sample_acme; sample_zeta] [sample_a1]
                   _ _ _ _)).
  - vm_compute. reflexivity.
  - reflexivity.
Defined.


(** X16 on the sample data. *)
Lemma returned_table_ignores_operator_witness :
  exists s1 s2,
    main sample_table sample_upper sample_score no_click true sample_uuid4
         [sample_acme; sample_zeta] [sample_a1] = Ok s1
    /\ main sample_table sample_upper sample_flat_score sample_click true
            (fun n => sample_uuid4 (S n)) [sample_acme; sample_zeta] [sample_a1] = Ok s2
    /\ unmatched_companies s1 <> unmatched_companies s2
    /\ output s1 = output s2.
Proof.
  eexists. eexists. split; [vm_compute; reflexivity | ].
  split; [vm_compute; reflexivity | ].
  split; [vm_compute; discriminate | ].
  eapply (@returned_table_ignores_operator sample_table sample_upper sample_score
            sample_flat_score no_click sample_click sample_uuid4
            (fun n => sample_uuid4 (S n)) [sample_acme; sample_zeta] [sample_a1]);
    reflexivity.
Defined.
